(** * Semantic versioning: parsing and comparison of version strings

    A shallow embedding of [task_2.py] (class [Version]) and the proofs of
    the properties its specification states.

    Conventions of the embedding.
    - A Python [str] is a Rocq [string]; its characters are the code points
      0..255.  In that range the regular-expression class [\d] and the
      digits accepted by [int()] are exactly ['0'..'9'].
    - A Python [int] is a [Z]; the result of [len] is a [nat].
    - A raised exception is the [Raise] case of [result]; statements are
      sequenced with the bind of that monad, so the first exception wins,
      as in Python.
    - The dictionaries [_PRIORITY] and [_SHORTENING] are [gmap]s with
      string keys; [d[k]] on a missing key raises [KeyError]. *)

From Stdlib Require Import ZArith Lia Ascii String.
From stdpp Require Import base option list strings gmap.

Local Open Scope string_scope.
Local Open Scope Z_scope.

(** ** Exceptions and the error monad *)

Inductive exn : Type :=
| ValueError (msg : string)         (* raise ValueError(msg) in [parse] *)
| IntValueError (literal : string)  (* ValueError of [int(literal)] *)
| KeyError (key : string)
| IndexError
| TypeError.

Inductive result (A : Type) : Type :=
| Ok (a : A)
| Raise (e : exn).

Arguments Ok {A} a.
Arguments Raise {A} e.

#[global] Instance result_ret : MRet result := fun A a => Ok a.

#[global] Instance result_bind : MBind result := fun A B f m =>
  match m with
  | Ok a => f a
  | Raise e => Raise e
  end.

(** ** Characters and strings *)

Definition char_between (lo hi c : ascii) : bool :=
  (nat_of_ascii lo <=? nat_of_ascii c)%nat && (nat_of_ascii c <=? nat_of_ascii hi)%nat.

(* \d  *)
Definition is_digit (c : ascii) : bool := char_between "0"%char "9"%char c.
(* [1-9] *)
Definition is_nonzero_digit (c : ascii) : bool := char_between "1"%char "9"%char c.
(* [a-zA-Z-] *)
Definition is_letter_or_hyphen (c : ascii) : bool :=
  char_between "a"%char "z"%char c || char_between "A"%char "Z"%char c || Ascii.eqb c "-"%char.
(* [0-9a-zA-Z-] *)
Definition is_alnum_or_hyphen (c : ascii) : bool :=
  char_between "0"%char "9"%char c || is_letter_or_hyphen c.

(* s[n:] *)
Fixpoint drop_chars (n : nat) (s : string) : string :=
  match n, s with
  | O, _ => s
  | S n', String _ s' => drop_chars n' s'
  | S _, EmptyString => EmptyString
  end.

(* s[:n] *)
Fixpoint take_chars (n : nat) (s : string) : string :=
  match n, s with
  | O, _ => EmptyString
  | S n', String c s' => String c (take_chars n' s')
  | S _, EmptyString => EmptyString
  end.

(* s.split(sep) for a one-character separator: always at least one piece *)
Fixpoint split_on (sep : ascii) (s : string) : list string :=
  match s with
  | EmptyString => [EmptyString]
  | String c s' =>
      if Ascii.eqb c sep then EmptyString :: split_on sep s'
      else match split_on sep s' with
           | piece :: pieces => String c piece :: pieces
           | [] => [String c EmptyString]
           end
  end.

(* x in (t1, t2, ...) for strings *)
Definition str_in (x : string) (t : list string) : bool :=
  existsb (String.eqb x) t.

(** ** Python's [int(str)], base 10 *)

(* The characters [str.strip()] removes, among the code points 0..255. *)
Definition is_space (c : ascii) : bool :=
  let n := nat_of_ascii c in
  ((9 <=? n) && (n <=? 13) || (28 <=? n) && (n <=? 32)
   || (n =? 133) || (n =? 160))%nat.

Fixpoint lstrip (s : string) : string :=
  match s with
  | String c s' => if is_space c then lstrip s' else s
  | EmptyString => EmptyString
  end.

Fixpoint rstrip (s : string) : string :=
  match s with
  | EmptyString => EmptyString
  | String c s' =>
      match rstrip s' with
      | EmptyString => if is_space c then EmptyString else String c EmptyString
      | t => String c t
      end
  end.

Definition digit_value (c : ascii) : Z :=
  Z.of_nat (nat_of_ascii c) - 48.

(* Digits with single underscores allowed between them (the interpreter's
   configurable limit on the number of digits is left out); [acc] is the value
   read so far and [after_digit] tells whether the previous character was a
   digit (an underscore must stand between two digits). *)
Fixpoint int_digits (acc : Z) (after_digit : bool) (s : string) : option Z :=
  match s with
  | EmptyString => if after_digit then Some acc else None
  | String c s' =>
      if is_digit c then int_digits (10 * acc + digit_value c) true s'
      else if Ascii.eqb c "_"%char && after_digit then int_digits acc false s'
      else None
  end.

Definition int (s : string) : result Z :=
  let t := rstrip (lstrip s) in
  let '(negative, body) :=
    match t with
    | String "-"%char r => (true, r)
    | String "+"%char r => (false, r)
    | _ => (false, t)
    end in
  match int_digits 0 false body with
  | Some n => Ok (if negative then - n else n)
  | None => Raise (IntValueError s)
  end.

(* int(g) where g is a group of a match object: a group that took no part
   in the match is None, and int(None) is a TypeError *)
Definition int_group (g : option string) : result Z :=
  match g with
  | Some s => int s
  | None => Raise TypeError
  end.

(** ** Regular expressions: the fragment of [re] that [_REGEXP] uses

    A backtracking matcher with the priorities of Python's [re]: the
    alternatives of [|] are tried from left to right, [?] and [*] are greedy,
    and a later failure returns to the most recent choice.  The continuation
    [k] is the rest of the pattern; the groups recorded so far travel with
    it, so a choice that is undone also undoes its groups. *)

Inductive regex : Type :=
| Lit (s : string)                 (* literal text *)
| Class (p : ascii -> bool)        (* one character of a class *)
| Seq (r1 r2 : regex)              (* r1 r2 *)
| Alt (r1 r2 : regex)              (* r1|r2 *)
| Opt (r : regex)                  (* r? *)
| Star (r : regex)                 (* r* *)
| Group (name : string) (r : regex) (* (?P<name>r) *)
| Bol                              (* ^ *)
| Eol.                             (* $ *)

(* The groups of a match object: a group that took no part is absent. *)
Abbreviation groups := (gmap string string).

Fixpoint strip_prefix (p s : string) : option string :=
  match p, s with
  | EmptyString, _ => Some s
  | String a p', String b s' => if Ascii.eqb a b then strip_prefix p' s' else None
  | String _ _, EmptyString => None
  end.

(* Without re.MULTILINE, $ matches at the end of the string and just before
   a newline that ends the string. *)
Definition at_end (s : string) : bool :=
  match s with
  | EmptyString => true
  | String c EmptyString => Ascii.eqb c "010"%char
  | _ => false
  end.

Section Matcher.
(* the whole subject string; [s] below is what is left of it *)
Variable subject : string.

Definition matched_text (s s' : string) : string :=
  take_chars (String.length s - String.length s')
             (drop_chars (String.length subject - String.length s) subject).

Fixpoint match_here (r : regex) (s : string) (g : groups)
         (k : string -> groups -> option groups) {struct r} : option groups :=
  match r with
  | Lit p =>
      match strip_prefix p s with
      | Some s' => k s' g
      | None => None
      end
  | Class p =>
      match s with
      | String c s' => if p c then k s' g else None
      | EmptyString => None
      end
  | Seq r1 r2 => match_here r1 s g (fun s' g' => match_here r2 s' g' k)
  | Alt r1 r2 =>
      match match_here r1 s g k with
      | Some m => Some m
      | None => match_here r2 s g k
      end
  | Opt r1 =>
      match match_here r1 s g k with
      | Some m => Some m
      | None => k s g
      end
  | Star r1 =>
      (* every repetition consumes at least one character, so the length
         of [s] bounds their number *)
      (fix repeat (fuel : nat) (s : string) (g : groups) : option groups :=
         match fuel with
         | O => k s g
         | S fuel' =>
             match match_here r1 s g
                     (fun s' g' =>
                        if (String.length s' <? String.length s)%nat
                        then repeat fuel' s' g' else None) with
             | Some m => Some m
             | None => k s g
             end
         end) (String.length s) s g
  | Group name r1 =>
      match_here r1 s g (fun s' g' => k s' (<[name := matched_text s s']> g'))
  | Bol => if (String.length s =? String.length subject)%nat then k s g else None
  | Eol => if at_end s then k s g else None
  end.
End Matcher.

(* pattern.match(string): the pattern must match at the start of the string *)
Definition re_match (r : regex) (s : string) : option groups :=
  match_here s r s ∅ (fun _ g => Some g).

Declare Scope regex_scope.
Delimit Scope regex_scope with re.
Bind Scope regex_scope with regex.
Infix "·" := Seq (at level 40, left associativity) : regex_scope.
Infix "|||" := Alt (at level 50, left associativity) : regex_scope.

(** ** The class [Version] *)

(* 0|[1-9]\d* *)
Definition numeric : regex :=
  (Lit "0" ||| Class is_nonzero_digit · Star (Class is_digit))%re.

(* 0|[1-9]\d*|\d*[a-zA-Z-][0-9a-zA-Z-]* *)
Definition identifier : regex :=
  (Lit "0"
   ||| Class is_nonzero_digit · Star (Class is_digit)
   ||| Star (Class is_digit) · Class is_letter_or_hyphen · Star (Class is_alnum_or_hyphen))%re.

(* a|b|rc|r|alpha|beta|release|release_candidate *)
Definition shorten_re : regex :=
  (Lit "a" ||| Lit "b" ||| Lit "rc" ||| Lit "r" ||| Lit "alpha"
   ||| Lit "beta" ||| Lit "release" ||| Lit "release_candidate")%re.

(* a hyphen, an identifier, then any number of: a dot and an identifier *)
Definition default_re : regex :=
  (Lit "-" · (identifier · Star (Lit "." · identifier)))%re.

(* the alternatives of the group pre_release: an optional shorthand, or
   else an optional default-form pre-release *)
Definition pre_release_re : regex :=
  (Opt (Group "shorten_pre_release" shorten_re)
   ||| Opt (Group "default_pre_release" default_re))%re.

Definition _REGEXP : regex :=
  (Bol · Group "major" numeric
   · Lit "." · Group "minor" numeric
   · Lit "." · Group "patch" numeric
   · Group "pre_release" pre_release_re
   · Eol)%re.

Definition _PRIORITY : gmap string Z :=
  <["alpha" := 0]> (<["beta" := 1]> (<["release_candidate" := 2]> (<["release" := 3]> ∅))).

Definition _SHORTENING : gmap string string :=
  <["a" := "alpha"]> (<["b" := "beta"]> (<["rc" := "release_candidate"]> (<["r" := "release"]> ∅))).

(* d[k] *)
Definition getitem {V : Type} (d : gmap string V) (k : string) : result V :=
  match d !! k with
  | Some v => Ok v
  | None => Raise (KeyError k)
  end.

Definition parse (version : string)
  : result (option string * option string * option string * option string * option string) :=
  match re_match _REGEXP version with
  | None => Raise (ValueError (version ++ " is not valid version")%string)
  | Some m =>
      Ok (m !! "major", m !! "minor", m !! "patch",
          m !! "shorten_pre_release", m !! "default_pre_release")
  end.

(* An element of [pre_release]: an [int] or a [str]. *)
Inductive ident : Type :=
| IInt (n : Z)
| IStr (s : string).

Definition replace_shortening (shorten_string : string) : result ident :=
  if str_in shorten_string ["a"; "b"; "rc"; "c"] then
    full ← getitem _SHORTENING shorten_string; Ok (IStr full)
  else if negb (str_in shorten_string ["alpha"; "beta"; "release_candidate"; "release"]) then
    n ← int shorten_string; Ok (IInt n)
  else Ok (IStr shorten_string).

(* Both operands are an [int] or a [str] here, so one of the four branches
   is taken and the result is 1, 0 or -1 unless a lookup in [_PRIORITY]
   raises. *)
Definition partial_compare (o1 o2 : ident) : result Z :=
  match o1, o2 with
  | IInt n1, IInt n2 => Ok (if n1 >? n2 then 1 else if n1 =? n2 then 0 else -1)
  | IInt _, IStr _ => Ok (-1)
  | IStr _, IInt _ => Ok 1
  | IStr s1, IStr s2 =>
      p1 ← getitem _PRIORITY s1;
      p2 ← getitem _PRIORITY s2;
      if p1 >? p2 then Ok 1
      else
        p1' ← getitem _PRIORITY s1;
        p2' ← getitem _PRIORITY s2;
        Ok (if p1' =? p2' then 0 else -1)
  end.

Record Version : Type := mkVersion {
  main_version : Z * Z * Z;
  pre_release : list ident;
  pre_release_len : nat
}.

(* The values a comparison is applied to, and the values the methods
   return. *)
Inductive object : Type :=
| OVersion (v : Version)
| OInt (n : Z)
| OStr (s : string)
| ONone.

Inductive value : Type :=
| VInt (n : Z)
| VBool (b : bool)
| NotImplemented.

(* isinstance(other, self.__class__) *)
Definition as_Version (other : object) : option Version :=
  match other with
  | OVersion v => Some v
  | _ => None
  end.

(* Python compares tuples at the first position where they differ. *)
Definition tuple_gt (a b : Z * Z * Z) : bool :=
  let '(a1, a2, a3) := a in
  let '(b1, b2, b3) := b in
  if negb (a1 =? b1) then a1 >? b1
  else if negb (a2 =? b2) then a2 >? b2
  else a3 >? b3.

Definition tuple_lt (a b : Z * Z * Z) : bool :=
  let '(a1, a2, a3) := a in
  let '(b1, b2, b3) := b in
  if negb (a1 =? b1) then a1 <? b1
  else if negb (a2 =? b2) then a2 <? b2
  else a3 <? b3.

Definition tuple_eq (a b : Z * Z * Z) : bool :=
  let '(a1, a2, a3) := a in
  let '(b1, b2, b3) := b in
  (a1 =? b1) && (a2 =? b2) && (a3 =? b3).

Definition ident_eq (x y : ident) : bool :=
  match x, y with
  | IInt n1, IInt n2 => n1 =? n2
  | IStr s1, IStr s2 => String.eqb s1 s2
  | _, _ => false
  end.

Fixpoint idents_eq (xs ys : list ident) : bool :=
  match xs, ys with
  | [], [] => true
  | x :: xs', y :: ys' => ident_eq x y && idents_eq xs' ys'
  | _, _ => false
  end.

(* t[i] *)
Definition index {A : Type} (t : list A) (i : nat) : result A :=
  match t !! i with
  | Some x => Ok x
  | None => Raise IndexError
  end.

(* The [for] loop of [compare] over the indices [idx]: [Some r] when the
   body returns [r], [None] when the loop runs to its end. *)
Fixpoint compare_loop (self other : list ident) (idx : list nat) : result (option Z) :=
  match idx with
  | [] => Ok None
  | i :: idx' =>
      x ← index self i;
      y ← index other i;
      r ← partial_compare x y;
      if r =? 1 then Ok (Some 1)
      else
        x' ← index self i;
        y' ← index other i;
        r' ← partial_compare x' y';
        if r' =? -1 then Ok (Some (-1))
        else compare_loop self other idx'
  end.

Definition compare (self : Version) (other : object) : result value :=
  match as_Version other with
  | None => Ok NotImplemented
  | Some other =>
      if tuple_gt (main_version self) (main_version other) then Ok (VInt 1)
      else if tuple_lt (main_version self) (main_version other) then Ok (VInt (-1))
      else if (pre_release_len self =? 0)%nat && (pre_release_len other =? 0)%nat
      then Ok (VInt 0)
      else if (pre_release_len self =? 0)%nat then Ok (VInt 1)
      else if (pre_release_len other =? 0)%nat then Ok (VInt (-1))
      else
        let min_len := Nat.min (pre_release_len self) (pre_release_len other) in
        r ← compare_loop (pre_release self) (pre_release other) (seq 0 min_len);
        match r with
        | Some n => Ok (VInt n)
        | None =>
            if (pre_release_len other <? pre_release_len self)%nat then Ok (VInt 1)
            else if (pre_release_len self <? pre_release_len other)%nat then Ok (VInt (-1))
            else Ok (VInt 0)
        end
  end.

(* Version(version) *)
Definition __init__ (version : string) : result Version :=
  '(major, minor, patch, shorten_pre_release, default_pre_release) ← parse version;
  major' ← int_group major;
  minor' ← int_group minor;
  patch' ← int_group patch;
  pre ← (match shorten_pre_release with
          | None =>
              match default_pre_release with
              | Some d => mapM replace_shortening (split_on "." (drop_chars 1 d))
              | None => Ok []
              end
          | Some sh => x ← replace_shortening sh; Ok [x]
          end);
  Ok {| main_version := (major', minor', patch');
        pre_release := pre;
        pre_release_len := length pre |}.

Definition __eq__ (self : Version) (other : object) : result value :=
  match as_Version other with
  | None => Ok NotImplemented
  | Some other =>
      Ok (VBool (tuple_eq (main_version self) (main_version other)
                 && idents_eq (pre_release self) (pre_release other)))
  end.

(* r == n for the value [r] a method returned *)
Definition value_eq_int (r : value) (n : Z) : bool :=
  match r with
  | VInt m => m =? n
  | VBool b => (if b then 1 else 0) =? n
  | NotImplemented => false
  end.

Definition __lt__ (self : Version) (other : object) : result value :=
  match as_Version other with
  | None => Ok NotImplemented
  | Some _ =>
      r ← compare self other;
      Ok (VBool (value_eq_int r (-1)))
  end.

(** ** Vocabulary of the specification *)

(* The three-way results of the comparator. *)
Definition LESS : value := VInt (-1).
Definition EQUAL : value := VInt 0.
Definition GREATER : value := VInt 1.

(* Release-stage tokens, in ascending priority. *)
Definition stage_order : list string :=
  ["alpha"; "beta"; "release_candidate"; "release"].

Definition is_stage (s : string) : bool := str_in s stage_order.

(* An identifier of the data model: an integer or a stage token. *)
Definition canonical (x : ident) : bool :=
  match x with
  | IInt _ => true
  | IStr s => is_stage s
  end.

(* What [__init__] establishes. *)
Definition well_formed (v : Version) : Prop :=
  pre_release_len v = length (pre_release v)
  /\ forallb canonical (pre_release v) = true.

Definition constructed (v : Version) : Prop :=
  exists version : string, __init__ version = Ok v.

(* Versions used in the examples. *)
Definition v_1_0_0 : Version := mkVersion (1, 0, 0) [] 0.
Definition v_1_0_0_alpha : Version := mkVersion (1, 0, 0) [IStr "alpha"] 1.
Definition v_1_0_0_alpha_1 : Version := mkVersion (1, 0, 0) [IStr "alpha"; IInt 1] 2.
Definition v_1_0_0_alpha_beta : Version := mkVersion (1, 0, 0) [IStr "alpha"; IStr "beta"] 2.

Fixpoint all_chars (p : ascii -> bool) (s : string) : bool :=
  match s with
  | EmptyString => true
  | String c s' => p c && all_chars p s'
  end.

(* The strings that the pattern 0|[1-9]\d* matches in full. *)
Definition is_numeral (s : string) : bool :=
  match s with
  | EmptyString => false
  | String c ds =>
      if Ascii.eqb c "0"%char
      then match ds with EmptyString => true | String _ _ => false end
      else is_nonzero_digit c && all_chars is_digit ds
  end.

Definition starts_with (p : ascii -> bool) (s : string) : bool :=
  match s with
  | String c _ => p c
  | EmptyString => false
  end.

(* The invalid-format error of the specification: the [ValueError] that
   [parse] raises, whose message starts with the offending input. *)
Definition invalid_format (version : string) : exn :=
  ValueError (version ++ " is not valid version")%string.

(* The loop of [compare] read off the two tuples in step, without indices;
   [compare_loop_scan] below shows it is the loop of the source. *)
Fixpoint scan (xs ys : list ident) : result (option Z) :=
  match xs, ys with
  | x :: xs', y :: ys' =>
      r ← partial_compare x y;
      if r =? 1 then Ok (Some 1)
      else if r =? -1 then Ok (Some (-1))
      else scan xs' ys'
  | _, _ => Ok None
  end.

Ltac unfold_bind := unfold mbind, result_bind, mret, result_ret in *.

(** ** The comparison operators and [main]

    Python evaluates [a < x] as [a.__lt__(x)]; when a method answers
    NotImplemented the reflected method of the other operand is asked, and
    when no method answers, [<] and [>] raise TypeError while [==] and [!=]
    compare identities.  [Version] defines neither [__gt__] nor [__ne__]:
    [a > x] is answered by the reflected [x.__lt__(a)], and [a != x] by the
    default [__ne__], which negates [a.__eq__(x)].  An [int], a [str] and
    [None] answer NotImplemented to every comparison with a Version. *)

(* the truth value of a returned value, as [assert] and [not] take it *)
Definition truthy (r : value) : bool :=
  match r with
  | VInt n => negb (n =? 0)
  | VBool b => b
  | NotImplemented => true
  end.

(* a < x *)
Definition op_lt (a : Version) (x : object) : result value :=
  r ← __lt__ a x;
  match r with
  | NotImplemented => Raise TypeError
  | _ => Ok r
  end.

(* a > x *)
Definition op_gt (a : Version) (x : object) : result value :=
  match x with
  | OVersion b =>
      r ← __lt__ b (OVersion a);
      match r with
      | NotImplemented => Raise TypeError
      | _ => Ok r
      end
  | _ => Raise TypeError
  end.

(* a == x *)
Definition op_eq (a : Version) (x : object) : result value :=
  r ← __eq__ a x;
  match r with
  | NotImplemented => Ok (VBool false)
  | _ => Ok r
  end.

(* a != x *)
Definition op_ne (a : Version) (x : object) : result value :=
  r ← __eq__ a x;
  match r with
  | NotImplemented => Ok (VBool true)
  | _ => Ok (VBool (negb (truthy r)))
  end.

(* How a run of [main] ends. *)
Inductive outcome : Type :=
| Returned
| AssertionError (msg : string)
| Uncaught (e : exn).

(* assert cond, msg; then the rest of the run *)
Definition assert_then (cond : result value) (msg : string) (rest : outcome) : outcome :=
  match cond with
  | Raise e => Uncaught e
  | Ok r => if truthy r then rest else AssertionError msg
  end.

Definition to_test : list (string * string) :=
  [("1.0.0", "2.0.0");
   ("1.0.0", "1.42.0");
   ("1.2.0", "1.2.42");
   ("1.1.0-alpha", "1.2.0-alpha.1");
   ("1.0.1b", "1.0.10-alpha.beta");
   ("1.0.0-rc.1", "1.0.0")].

(* The [for] loop of [main] over the pairs [tests]. *)
Fixpoint main_loop (tests : list (string * string)) : outcome :=
  match tests with
  | [] => Returned
  | (version_1, version_2) :: tests' =>
      assert_then (a ← __init__ version_1; b ← __init__ version_2; op_lt a (OVersion b))
                  "le failed"
        (assert_then (a ← __init__ version_2; b ← __init__ version_1; op_gt a (OVersion b))
                     "ge failed"
           (assert_then (a ← __init__ version_2; b ← __init__ version_1; op_ne a (OVersion b))
                        "neq failed"
              (main_loop tests')))
  end.

Definition main : outcome := main_loop to_test.

(* The order of two non-empty pre-release tuples, as the loop of [compare]
   and the comparison of the lengths after it decide it. *)
Definition scan_less (xs ys : list ident) : Prop :=
  scan xs ys = Ok (Some (-1))
  \/ (scan xs ys = Ok None /\ (length xs < length ys)%nat).

(* The order of two pre-release tuples: a Version without pre-release comes
   after every Version with one. *)
Definition pre_release_less (xs ys : list ident) : Prop :=
  match xs, ys with
  | [], _ => False
  | _ :: _, [] => True
  | _ :: _, _ :: _ => scan_less xs ys
  end.

(* Two more Versions for the examples; no string constructs the first. *)
Definition v_1_2_0_release : Version := mkVersion (1, 2, 0) [IStr "release"] 1.
Definition v_1_10_0_alpha_1 : Version := mkVersion (1, 10, 0) [IStr "alpha"; IInt 1] 2.

(* One pair of the loop passes its three assertions exactly when both
   strings construct and the first Version compares LESS than the second. *)
Definition pair_in_order (pair : string * string) : Prop :=
  exists a b : Version,
    __init__ (fst pair) = Ok a /\ __init__ (snd pair) = Ok b
    /\ compare a (OVersion b) = Ok LESS.

(* "\n" *)
Definition newline : string := String "010"%char EmptyString.



(* The names of the groups of a pattern. *)
Fixpoint group_names (r : regex) : list string :=
  match r with
  | Lit _ | Class _ | Bol | Eol => []
  | Seq r1 r2 | Alt r1 r2 => group_names r1 ++ group_names r2
  | Opt r1 | Star r1 => group_names r1
  | Group name r1 => name :: group_names r1
  end.

(** ** The grammar on numerals *)

Lemma length_append (s t : string) :
  String.length (s ++ t) = (String.length s + String.length t)%nat.
Proof.
  induction s as [|c s IH]; [reflexivity|].
  change (S (String.length (s ++ t)) = S (String.length s + String.length t)).
  f_equal. exact IH.
Qed.

Lemma append_assoc (s t u : string) : ((s ++ t) ++ u = s ++ t ++ u)%string.
Proof.
  induction s as [|c s IH]; [reflexivity|].
  change (String c ((s ++ t) ++ u) = String c (s ++ t ++ u))%string.
  f_equal. exact IH.
Qed.

Lemma drop_chars_append (s t : string) : drop_chars (String.length s) (s ++ t) = t.
Proof. induction s as [|c s IH]; [reflexivity|exact IH]. Qed.

Lemma take_chars_append (s t : string) : take_chars (String.length s) (s ++ t) = s.
Proof.
  induction s as [|c s IH]; [reflexivity|].
  change (String c (take_chars (String.length s) (s ++ t)) = String c s).
  f_equal. exact IH.
Qed.

Lemma matched_text_middle (before s after : string) :
  matched_text (before ++ s ++ after) (s ++ after) after = s.
Proof.
  unfold matched_text. rewrite !length_append.
  replace (String.length before + (String.length s + String.length after)
           - (String.length s + String.length after))%nat
    with (String.length before) by lia.
  replace (String.length s + String.length after - String.length after)%nat
    with (String.length s) by lia.
  rewrite drop_chars_append. apply take_chars_append.
Qed.

Section Numerals.
Variable subject : string.

Lemma star_class_step (p : ascii -> bool) (c : ascii) (s : string) (g : groups)
      (k : string -> groups -> option groups) :
  p c = true ->
  match_here subject (Star (Class p)) (String c s) g k =
    match match_here subject (Star (Class p)) s g k with
    | Some m => Some m
    | None => k (String c s) g
    end.
Proof.
  intros Hc. cbn [match_here String.length]. rewrite Hc.
  replace (String.length s <? S (String.length s))%nat with true
    by (symmetry; apply Nat.ltb_lt; lia).
  reflexivity.
Qed.

Lemma star_class_stop (p : ascii -> bool) (s : string) (g : groups)
      (k : string -> groups -> option groups) :
  starts_with p s = false ->
  match_here subject (Star (Class p)) s g k = k s g.
Proof.
  destruct s as [|c s]; cbn [starts_with match_here String.length]; [reflexivity|].
  intros ->. reflexivity.
Qed.

(* Greedy [p*] followed by a pattern that cannot start with a [p]: all of
   the run of [p]s is taken. *)
Lemma star_class_run (p : ascii -> bool) (ds rest : string) (g : groups)
      (k : string -> groups -> option groups) :
  (forall c t g', p c = true -> k (String c t) g' = None) ->
  all_chars p ds = true ->
  starts_with p rest = false ->
  match_here subject (Star (Class p)) (ds ++ rest) g k = k rest g.
Proof.
  intros Hk Hds Hrest. induction ds as [|c ds IH].
  - apply star_class_stop, Hrest.
  - apply andb_true_iff in Hds as [Hc Hds].
    change (String c ds ++ rest)%string with (String c (ds ++ rest)).
    rewrite star_class_step by exact Hc. rewrite (IH Hds), Hk by exact Hc.
    destruct (k rest g); reflexivity.
Qed.

Lemma match_numeric (X rest : string) (g : groups)
      (k : string -> groups -> option groups) :
  (forall c t g', is_digit c = true -> k (String c t) g' = None) ->
  is_numeral X = true ->
  starts_with is_digit rest = false ->
  match_here subject numeric (X ++ rest) g k = k rest g.
Proof.
  intros Hk HX Hrest. destruct X as [|c ds]; [discriminate|].
  unfold numeric. cbn [is_numeral] in HX.
  change (String c ds ++ rest)%string with (String c (ds ++ rest)).
  cbn [match_here strip_prefix]. rewrite (Ascii.eqb_sym "0" c).
  destruct (Ascii.eqb_spec c "0") as [->|Hc].
  - destruct ds; [|discriminate]. change (EmptyString ++ rest)%string with rest.
    change (is_nonzero_digit "0"%char) with false. destruct (k rest g); reflexivity.
  - apply andb_true_iff in HX as [Hnz Hds]. rewrite Hnz.
    apply (star_class_run is_digit); assumption.
Qed.

Lemma match_group_numeric (name before X rest : string) (g : groups)
      (k : string -> groups -> option groups) :
  subject = (before ++ X ++ rest)%string ->
  (forall c t g', is_digit c = true -> k (String c t) g' = None) ->
  is_numeral X = true ->
  starts_with is_digit rest = false ->
  match_here subject (Group name numeric) (X ++ rest) g k = k rest (<[name := X]> g).
Proof.
  intros Hs Hk HX Hrest. cbn [match_here].
  rewrite match_numeric; try assumption.
  - rewrite Hs, matched_text_middle. reflexivity.
  - intros c t g' Hc. apply Hk, Hc.
Qed.
End Numerals.

Lemma digit_cases (c : ascii) :
  is_digit c = true ->
  In c ["0"; "1"; "2"; "3"; "4"; "5"; "6"; "7"; "8"; "9"]%char.
Proof.
  destruct c as [[] [] [] [] [] [] [] []]; intros H; try discriminate H;
    cbn [In]; tauto.
Qed.

Ltac each_digit H :=
  apply digit_cases in H; cbn [In] in H;
  destruct H as [<-|[<-|[<-|[<-|[<-|[<-|[<-|[<-|[<-|[<-|[]]]]]]]]]]].

Section Unfolding.
Variable subject : string.
Implicit Types (r : regex) (s : string) (g : groups)
         (k : string -> groups -> option groups).

Lemma match_seq r1 r2 s g k :
  match_here subject (Seq r1 r2) s g k =
    match_here subject r1 s g (fun s' g' => match_here subject r2 s' g' k).
Proof. reflexivity. Qed.

Lemma match_group name r s g k :
  match_here subject (Group name r) s g k =
    match_here subject r s g
      (fun s' g' => k s' (<[name := matched_text subject s s']> g')).
Proof. reflexivity. Qed.

Lemma match_bol g k : match_here subject Bol subject g k = k subject g.
Proof. cbn [match_here]. rewrite Nat.eqb_refl. reflexivity. Qed.

Lemma match_dot s g k :
  match_here subject (Lit ".") ("." ++ s) g k = k s g.
Proof. reflexivity. Qed.

Lemma match_dot_digit (c : ascii) s g k :
  is_digit c = true -> match_here subject (Lit ".") (String c s) g k = None.
Proof. intros Hc. each_digit Hc; reflexivity. Qed.

(* The pre-release part of the pattern, followed by [$], does not match
   where a digit comes next. *)
Lemma match_pre_release_digit (c : ascii) s g k :
  is_digit c = true ->
  match_here subject (Group "pre_release" pre_release_re) (String c s) g
             (fun s' g' => match_here subject Eol s' g' k) = None.
Proof.
  intros Hc. each_digit Hc; destruct s; reflexivity.
Qed.
End Unfolding.

(* The three numbers of a version string, whatever follows the patch
   number, as long as it is not one more digit. *)
Lemma match_main_version (X Y Z t : string) (k : string -> groups -> option groups) :
  is_numeral X = true -> is_numeral Y = true -> is_numeral Z = true ->
  starts_with is_digit t = false ->
  let subject := (X ++ "." ++ Y ++ "." ++ Z ++ t)%string in
  match_here subject _REGEXP subject ∅ k =
    match_here subject (Group "pre_release" pre_release_re) t
      (<["patch" := Z]> (<["minor" := Y]> (<["major" := X]> ∅)))
      (fun s' g' => match_here subject Eol s' g' k).
Proof.
  intros HX HY HZ Ht subject. unfold _REGEXP.
  rewrite !match_seq, match_bol.
  rewrite (match_group_numeric subject "major" "" X ("." ++ Y ++ "." ++ Z ++ t));
    [|reflexivity|intros c s g Hc; apply match_dot_digit, Hc|exact HX|reflexivity].
  rewrite match_dot.
  rewrite (match_group_numeric subject "minor" (X ++ ".") Y ("." ++ Z ++ t));
    [|subst subject; rewrite !append_assoc; reflexivity
     |intros c s g Hc; apply match_dot_digit, Hc|exact HY|reflexivity].
  rewrite match_dot.
  rewrite (match_group_numeric subject "patch" (X ++ "." ++ Y ++ ".") Z t);
    [|subst subject; rewrite !append_assoc; reflexivity
     |intros c s g Hc; apply match_pre_release_digit, Hc|exact HZ|exact Ht].
  reflexivity.
Qed.

Lemma matched_text_end (before s : string) :
  matched_text (before ++ s) s "" = s.
Proof.
  unfold matched_text. rewrite length_append.
  replace (String.length before + String.length s - String.length s)%nat
    with (String.length before) by lia.
  rewrite drop_chars_append. cbn [String.length]. rewrite Nat.sub_0_r.
  induction s as [|c s IH]; [reflexivity|].
  change (String c (take_chars (String.length s) s) = String c s). f_equal. exact IH.
Qed.

(* The grammar on X.Y.Zs for the four shorthand tokens s. *)
Lemma parse_shorthand (X Y Z sh : string) :
  is_numeral X = true -> is_numeral Y = true -> is_numeral Z = true ->
  In sh ["a"; "b"; "rc"; "r"] ->
  parse (X ++ "." ++ Y ++ "." ++ Z ++ sh) = Ok (Some X, Some Y, Some Z, Some sh, None).
Proof.
  intros HX HY HZ Hsh. unfold parse, re_match.
  assert (Ht : starts_with is_digit sh = false)
    by (cbn [In] in Hsh; destruct Hsh as [<-|[<-|[<-|[<-|[]]]]]; reflexivity).
  rewrite match_main_version by assumption.
  assert (Hm : matched_text (X ++ "." ++ Y ++ "." ++ Z ++ sh) sh "" = sh).
  { rewrite <- (matched_text_end (X ++ "." ++ Y ++ "." ++ Z) sh) at 3.
    rewrite !append_assoc. reflexivity. }
  cbn [In] in Hsh; destruct Hsh as [<-|[<-|[<-|[<-|[]]]]];
    cbn -[matched_text insert lookup]; rewrite Hm; vm_compute; reflexivity.
Qed.

(** ** [int] on numerals *)

Lemma digit_not_space (c : ascii) : is_digit c = true -> is_space c = false.
Proof. intros Hc. each_digit Hc; reflexivity. Qed.

Lemma rstrip_digits (s : string) : all_chars is_digit s = true -> rstrip s = s.
Proof.
  induction s as [|c s IH]; [reflexivity|]. cbn [all_chars rstrip].
  intros [Hc Hs]%andb_true_iff. rewrite (IH Hs), (digit_not_space c Hc).
  destruct s; reflexivity.
Qed.

Lemma int_digits_total (s : string) (acc : Z) (after_digit : bool) :
  all_chars is_digit s = true ->
  s <> EmptyString \/ after_digit = true ->
  0 <= acc ->
  exists n : Z, int_digits acc after_digit s = Some n /\ 0 <= n.
Proof.
  revert acc after_digit. induction s as [|c s IH]; intros acc b Hs Hne Hacc.
  - destruct Hne as [[]| ->]; [reflexivity|]. exists acc. split; [reflexivity|exact Hacc].
  - cbn [all_chars] in Hs. apply andb_true_iff in Hs as [Hc Hs].
    cbn [int_digits]. rewrite Hc. apply IH; [exact Hs|right; reflexivity|].
    assert (0 <= digit_value c) by (each_digit Hc; vm_compute; discriminate). lia.
Qed.

Lemma numeral_digits (X : string) :
  is_numeral X = true -> all_chars is_digit X = true /\ X <> EmptyString.
Proof.
  destruct X as [|c ds]; [discriminate|]. cbn [is_numeral all_chars].
  destruct (Ascii.eqb_spec c "0") as [->|_].
  - destruct ds; [|discriminate]. intros _. split; [reflexivity|discriminate].
  - intros [Hc Hds]%andb_true_iff. split; [|discriminate].
    rewrite Hds, andb_true_r. unfold is_nonzero_digit, is_digit, char_between in *.
    apply andb_true_iff in Hc as [H1 H2]. apply andb_true_iff. split; [|exact H2].
    apply Nat.leb_le in H1. apply Nat.leb_le.
    change (nat_of_ascii "1") with 49%nat in H1.
    change (nat_of_ascii "0") with 48%nat. lia.
Qed.

Lemma int_numeral (X : string) :
  is_numeral X = true -> exists n : Z, int X = Ok n /\ 0 <= n.
Proof.
  intros HX. destruct (numeral_digits X HX) as [Hd Hne].
  destruct (int_digits_total X 0 false Hd (or_introl Hne)) as (n & Hn & Hpos); [lia|].
  exists n. split; [|exact Hpos]. unfold int.
  assert (Hl : lstrip X = X).
  { destruct X as [|c ds]; [reflexivity|]. cbn [all_chars] in Hd.
    apply andb_true_iff in Hd as [Hc _]. cbn [lstrip].
    rewrite (digit_not_space c Hc). reflexivity. }
  rewrite Hl, (rstrip_digits X Hd).
  destruct X as [|c ds]; [congruence|]. cbn [all_chars] in Hd.
  apply andb_true_iff in Hd as [Hc _].
  each_digit Hc; cbv beta iota; rewrite Hn; reflexivity.
Qed.

(** ** Construction through the shorthand branch *)

Lemma replace_shortening_tokens :
  replace_shortening "a" = Ok (IStr "alpha")
  /\ replace_shortening "b" = Ok (IStr "beta")
  /\ replace_shortening "rc" = Ok (IStr "release_candidate")
  /\ replace_shortening "r" = Raise (IntValueError "r").
Proof. repeat split; vm_compute; reflexivity. Qed.

(* For all numbers major, minor and patch written without leading zeros:
   with the shorthand a, b or rc appended, the version string constructs
   the Version with the one stage name the shorthand stands for; with r
   appended, construction raises. *)
Theorem shorthand_construction (major minor patch : string) :
  is_numeral major = true -> is_numeral minor = true -> is_numeral patch = true ->
  exists x y z : Z,
    int major = Ok x /\ int minor = Ok y /\ int patch = Ok z
    /\ __init__ (major ++ "." ++ minor ++ "." ++ patch ++ "a")
       = Ok (mkVersion (x, y, z) [IStr "alpha"] 1)
    /\ __init__ (major ++ "." ++ minor ++ "." ++ patch ++ "b")
       = Ok (mkVersion (x, y, z) [IStr "beta"] 1)
    /\ __init__ (major ++ "." ++ minor ++ "." ++ patch ++ "rc")
       = Ok (mkVersion (x, y, z) [IStr "release_candidate"] 1)
    /\ __init__ (major ++ "." ++ minor ++ "." ++ patch ++ "r")
       = Raise (IntValueError "r").
Proof.
  intros Hmajor Hminor Hpatch.
  destruct (int_numeral major Hmajor) as (x & Hx & _).
  destruct (int_numeral minor Hminor) as (y & Hy & _).
  destruct (int_numeral patch Hpatch) as (z & Hz & _).
  destruct replace_shortening_tokens as (Ra & Rb & Rrc & Rr).
  exists x, y, z. repeat split; try assumption; unfold __init__;
    rewrite parse_shorthand by (assumption || (cbn [In]; tauto));
    unfold_bind; cbn [int_group]; rewrite Hx, Hy, Hz.
  - rewrite Ra. reflexivity.
  - rewrite Rb. reflexivity.
  - rewrite Rrc. reflexivity.
  - rewrite Rr. reflexivity.
Qed.

Lemma shorthand_construction_witness :
  exists x y z : Z,
    int "1" = Ok x /\ int "0" = Ok y /\ int "10" = Ok z
    /\ __init__ "1.0.10a" = Ok (mkVersion (x, y, z) [IStr "alpha"] 1)
    /\ __init__ "1.0.10b" = Ok (mkVersion (x, y, z) [IStr "beta"] 1)
    /\ __init__ "1.0.10rc" = Ok (mkVersion (x, y, z) [IStr "release_candidate"] 1)
    /\ __init__ "1.0.10r" = Raise (IntValueError "r").
Proof.
  apply (shorthand_construction "1" "0" "10"); reflexivity.
Defined.

(** ** Construction on the inputs the specification names *)

(** C1. The grammar accepts "1.0.0r" through its shorthand branch and the
    shorthand table maps r to release, but the guard of
    [replace_shortening] lists c where r is meant: r falls through to
    [int] and construction raises instead of giving ('release',). *)
Theorem C1_shorthand_r_raises :
  parse "1.0.0r" = Ok (Some "1", Some "0", Some "0", Some "r", None)
  /\ _SHORTENING !! "r" = Some "release"
  /\ str_in "r" ["a"; "b"; "rc"; "c"] = false
  /\ replace_shortening "r" = Raise (IntValueError "r")
  /\ __init__ "1.0.0r" = Raise (IntValueError "r").
Proof. repeat split; vm_compute; reflexivity. Qed.

(** C5. Each of "1.01.0", "v1.0.0" and "1.0" makes construction raise the
    invalid-format error, which carries the input, and no Version comes
    out of it. *)
Theorem C5_malformed_inputs :
  __init__ "1.01.0" = Raise (invalid_format "1.01.0")
  /\ __init__ "v1.0.0" = Raise (invalid_format "v1.0.0")
  /\ __init__ "1.0" = Raise (invalid_format "1.0")
  /\ (forall v : Version,
        __init__ "1.01.0" <> Ok v /\ __init__ "v1.0.0" <> Ok v /\ __init__ "1.0" <> Ok v).
Proof.
  assert (H1 : __init__ "1.01.0" = Raise (invalid_format "1.01.0")) by (vm_compute; reflexivity).
  assert (H2 : __init__ "v1.0.0" = Raise (invalid_format "v1.0.0")) by (vm_compute; reflexivity).
  assert (H3 : __init__ "1.0" = Raise (invalid_format "1.0")) by (vm_compute; reflexivity).
  repeat split; try assumption; intros E; congruence.
Qed.

(** C7. "1.0.0a" and "1.0.0-alpha" both construct the Version whose
    pre_release is ('alpha',); [compare] on the two gives EQUAL and
    [__eq__] gives True. *)
Theorem C7_shorthand_equivalence :
  __init__ "1.0.0a" = Ok v_1_0_0_alpha
  /\ __init__ "1.0.0-alpha" = Ok v_1_0_0_alpha
  /\ pre_release v_1_0_0_alpha = [IStr "alpha"]
  /\ compare v_1_0_0_alpha (OVersion v_1_0_0_alpha) = Ok EQUAL
  /\ __eq__ v_1_0_0_alpha (OVersion v_1_0_0_alpha) = Ok (VBool true).
Proof. repeat split; vm_compute; reflexivity. Qed.

(** C10. "1.0.0-c" matches the grammar with -c as default-form
    pre-release, c passes the guard of [replace_shortening], the shorthand
    table has no entry for c, and construction raises KeyError, not the
    invalid-format error. *)
Theorem C10_hyphen_c_KeyError :
  parse "1.0.0-c" = Ok (Some "1", Some "0", Some "0", None, Some "-c")
  /\ str_in "c" ["a"; "b"; "rc"; "c"] = true
  /\ _SHORTENING !! "c" = None
  /\ __init__ "1.0.0-c" = Raise (KeyError "c")
  /\ __init__ "1.0.0-c" <> Raise (invalid_format "1.0.0-c").
Proof.
  assert (H : __init__ "1.0.0-c" = Raise (KeyError "c")) by (vm_compute; reflexivity).
  repeat split; try (vm_compute; reflexivity). rewrite H. discriminate.
Qed.

(** ** The identifier comparison rule *)

Lemma partial_compare_range (x y : ident) (r : Z) :
  partial_compare x y = Ok r -> r = 1 \/ r = 0 \/ r = -1.
Proof.
  destruct x as [n1|s1], y as [n2|s2]; simpl.
  - intros [= <-]. destruct (n1 >? n2); [|destruct (n1 =? n2)]; auto.
  - intros [= <-]; auto.
  - intros [= <-]; auto.
  - unfold getitem. destruct (_PRIORITY !! s1) as [p1|]; simpl; [|discriminate].
    destruct (_PRIORITY !! s2) as [p2|]; simpl; [|discriminate].
    destruct (p1 >? p2); [intros [= <-]; auto|].
    intros [= <-]. destruct (p1 =? p2); auto.
Qed.

(** C4. An integer identifier is below every stage token, whatever the
    integer and the token (the token need not even be in the priority
    table), a stage token is above every integer, and two stage tokens
    compare as their positions in alpha, beta, release_candidate, release. *)
Theorem C4_identifier_rule (n : Z) (s : string) (i j : nat) (s1 s2 : string) :
  stage_order !! i = Some s1 ->
  stage_order !! j = Some s2 ->
  partial_compare (IInt n) (IStr s) = Ok (-1)
  /\ partial_compare (IStr s) (IInt n) = Ok 1
  /\ partial_compare (IStr s1) (IStr s2)
     = Ok (if (i <? j)%nat then -1 else if (i =? j)%nat then 0 else 1).
Proof.
  intros Hi Hj. split; [reflexivity|]. split; [reflexivity|].
  destruct i as [|[|[|[|i]]]]; simpl in Hi; try discriminate;
    injection Hi as <-;
    destruct j as [|[|[|[|j]]]]; simpl in Hj; try discriminate;
    injection Hj as <-; vm_compute; reflexivity.
Qed.

Lemma C4_identifier_rule_witness :
  partial_compare (IInt 1000) (IStr "alpha") = Ok (-1)
  /\ partial_compare (IStr "alpha") (IInt 1000) = Ok 1
  /\ partial_compare (IStr "beta") (IStr "release") = Ok (-1).
Proof.
  exact (C4_identifier_rule 1000 "alpha" 1 3 "beta" "release" eq_refl eq_refl).
Defined.

(** ** Operands that are not Versions *)

(** C8. When the operand is not a Version, [compare], [__eq__] and
    [__lt__] return NotImplemented: no ordering, no boolean, no
    exception. *)
Theorem C8_foreign_operand (v : Version) (x : object) :
  (forall w : Version, x <> OVersion w) ->
  compare v x = Ok NotImplemented
  /\ __eq__ v x = Ok NotImplemented
  /\ __lt__ v x = Ok NotImplemented.
Proof.
  intros Hx. unfold compare, __eq__, __lt__.
  destruct x as [w| | |]; simpl; auto. destruct (Hx w eq_refl).
Qed.

Lemma C8_foreign_operand_witness :
  compare v_1_0_0 (OStr "1.0.0") = Ok NotImplemented
  /\ __eq__ v_1_0_0 (OStr "1.0.0") = Ok NotImplemented
  /\ __lt__ v_1_0_0 (OStr "1.0.0") = Ok NotImplemented.
Proof.
  apply (C8_foreign_operand v_1_0_0 (OStr "1.0.0")). intros w. discriminate.
Defined.

(** ** The loop of [compare] *)

Lemma compare_loop_cons (x y : ident) (xs ys : list ident) (n k : nat) :
  compare_loop (x :: xs) (y :: ys) (seq (S k) n) = compare_loop xs ys (seq k n).
Proof.
  revert k. induction n as [|n IH]; intros k; [reflexivity|].
  cbn [seq compare_loop]. rewrite IH. reflexivity.
Qed.

Lemma compare_loop_scan (xs ys : list ident) :
  compare_loop xs ys (seq 0 (Nat.min (length xs) (length ys))) = scan xs ys.
Proof.
  revert ys. induction xs as [|x xs IH]; intros [|y ys]; try reflexivity.
  cbn [length Nat.min seq compare_loop scan].
  rewrite compare_loop_cons, IH. unfold index. cbn [lookup list_lookup].
  unfold_bind. destruct (partial_compare x y) as [r|e]; reflexivity.
Qed.

Lemma scan_first_non_equal (xs ys : list ident) (i : nat) (x y : ident) (r : Z) :
  (forall j xj yj, (j < i)%nat -> xs !! j = Some xj -> ys !! j = Some yj ->
                   partial_compare xj yj = Ok 0) ->
  xs !! i = Some x -> ys !! i = Some y ->
  partial_compare x y = Ok r -> r <> 0 ->
  scan xs ys = Ok (Some r).
Proof.
  revert xs ys. induction i as [|i IH]; intros [|x0 xs] [|y0 ys] Hlt Hx Hy Hr Hne;
    try discriminate; cbn [scan].
  - injection Hx as ->. injection Hy as ->. rewrite Hr. unfold_bind.
    destruct (partial_compare_range _ _ _ Hr) as [->|[->| ->]]; [reflexivity|lia|reflexivity].
  - rewrite (Hlt 0%nat x0 y0) by (reflexivity || lia). unfold_bind. cbn [Z.eqb].
    apply IH; auto. intros j xj yj Hj. apply (Hlt (S j)). lia.
Qed.

Lemma scan_raises (xs ys : list ident) (i : nat) (x y : ident) (e : exn) :
  (forall j xj yj, (j < i)%nat -> xs !! j = Some xj -> ys !! j = Some yj ->
                   partial_compare xj yj = Ok 0) ->
  xs !! i = Some x -> ys !! i = Some y ->
  partial_compare x y = Raise e ->
  scan xs ys = Raise e.
Proof.
  revert xs ys. induction i as [|i IH]; intros [|x0 xs] [|y0 ys] Hlt Hx Hy Hr;
    try discriminate; cbn [scan].
  - injection Hx as ->. injection Hy as ->. rewrite Hr. reflexivity.
  - rewrite (Hlt 0%nat x0 y0) by (reflexivity || lia). unfold_bind. cbn [Z.eqb].
    apply IH; auto. intros j xj yj Hj. apply (Hlt (S j)). lia.
Qed.

Lemma scan_all_equal (xs ys : list ident) :
  (forall j xj yj, xs !! j = Some xj -> ys !! j = Some yj ->
                   partial_compare xj yj = Ok 0) ->
  scan xs ys = Ok None.
Proof.
  revert ys. induction xs as [|x xs IH]; intros [|y ys] Heq; try reflexivity.
  cbn [scan]. rewrite (Heq 0%nat x y) by reflexivity. unfold_bind. cbn [Z.eqb].
  apply IH. intros j. apply (Heq (S j)).
Qed.

Lemma scan_some (xs ys : list ident) (n : Z) :
  scan xs ys = Ok (Some n) -> n = 1 \/ n = -1.
Proof.
  revert ys. induction xs as [|x xs IH]; intros [|y ys]; try discriminate.
  cbn [scan]. unfold_bind. destruct (partial_compare x y) as [r|e]; [|discriminate].
  destruct (r =? 1); [intros [= <-]; auto|].
  destruct (r =? -1); [intros [= <-]; auto|]. apply IH.
Qed.

(** ** The main-version triples *)

Lemma tuple_gt_irrefl (a : Z * Z * Z) : tuple_gt a a = false.
Proof.
  destruct a as [[a1 a2] a3]. unfold tuple_gt.
  rewrite !Z.eqb_refl. cbn [negb]. rewrite Z.gtb_ltb. apply Z.ltb_irrefl.
Qed.

Lemma tuple_lt_irrefl (a : Z * Z * Z) : tuple_lt a a = false.
Proof.
  destruct a as [[a1 a2] a3]. unfold tuple_lt.
  rewrite !Z.eqb_refl. cbn [negb]. apply Z.ltb_irrefl.
Qed.

Lemma tuple_gt_lt (a b : Z * Z * Z) : tuple_gt a b = tuple_lt b a.
Proof.
  destruct a as [[a1 a2] a3], b as [[b1 b2] b3]. unfold tuple_gt, tuple_lt.
  rewrite !Z.gtb_ltb, (Z.eqb_sym b1 a1), (Z.eqb_sym b2 a2). reflexivity.
Qed.

Lemma tuple_lt_asym (a b : Z * Z * Z) : tuple_lt a b = true -> tuple_lt b a = false.
Proof.
  destruct a as [[a1 a2] a3], b as [[b1 b2] b3]. unfold tuple_lt.
  rewrite (Z.eqb_sym b1 a1), (Z.eqb_sym b2 a2).
  destruct (Z.eqb_spec a1 b1), (Z.eqb_spec a2 b2); cbn [negb]; lia.
Qed.

(** ** [compare] on two Versions of equal main version *)

Lemma compare_pre_release (a b : Version) :
  pre_release_len a = length (pre_release a) ->
  pre_release_len b = length (pre_release b) ->
  main_version a = main_version b ->
  pre_release a <> [] -> pre_release b <> [] ->
  compare a (OVersion b) =
    r ← scan (pre_release a) (pre_release b);
    match r with
    | Some n => Ok (VInt n)
    | None =>
        if (length (pre_release b) <? length (pre_release a))%nat then Ok GREATER
        else if (length (pre_release a) <? length (pre_release b))%nat then Ok LESS
        else Ok EQUAL
    end.
Proof.
  intros La Lb Hm Ha Hb. unfold compare. cbn [as_Version].
  rewrite Hm, tuple_gt_irrefl, tuple_lt_irrefl, La, Lb.
  destruct (pre_release a) as [|x xs]; [congruence|].
  destruct (pre_release b) as [|y ys]; [congruence|].
  cbn [length Nat.eqb andb]. cbv zeta.
  change (S (length xs)) with (length (x :: xs)).
  change (S (length ys)) with (length (y :: ys)).
  rewrite compare_loop_scan. reflexivity.
Qed.

(** C2. Two Versions with the same main version, one without pre-release
    and one with: the one with a pre-release compares LESS (and is [<]),
    the one without compares GREATER.  The Versions are any two objects
    whose pre_release_len is the length of their pre_release, as
    construction leaves them ([constructed_well_formed]). *)
Theorem C2_pre_release_precedes_final (final pre : Version) :
  pre_release_len final = length (pre_release final) ->
  pre_release_len pre = length (pre_release pre) ->
  main_version final = main_version pre ->
  pre_release final = [] ->
  pre_release pre <> [] ->
  compare pre (OVersion final) = Ok LESS
  /\ compare final (OVersion pre) = Ok GREATER
  /\ __lt__ pre (OVersion final) = Ok (VBool true).
Proof.
  intros Lf Lp Hm Hf Hp.
  assert (Hlt : compare pre (OVersion final) = Ok LESS).
  { unfold compare. cbn [as_Version].
    rewrite <- Hm, tuple_gt_irrefl, tuple_lt_irrefl, Lf, Lp, Hf.
    destruct (pre_release pre); [congruence|reflexivity]. }
  split; [exact Hlt|]. split.
  - unfold compare. cbn [as_Version].
    rewrite Hm, tuple_gt_irrefl, tuple_lt_irrefl, Lf, Lp, Hf.
    destruct (pre_release pre); [congruence|reflexivity].
  - unfold __lt__. cbn [as_Version]. rewrite Hlt. reflexivity.
Qed.

Lemma C2_pre_release_precedes_final_witness :
  __init__ "1.0.0" = Ok v_1_0_0
  /\ __init__ "1.0.0-alpha" = Ok v_1_0_0_alpha
  /\ compare v_1_0_0_alpha (OVersion v_1_0_0) = Ok LESS
  /\ compare v_1_0_0 (OVersion v_1_0_0_alpha) = Ok GREATER
  /\ __lt__ v_1_0_0_alpha (OVersion v_1_0_0) = Ok (VBool true).
Proof.
  split; [vm_compute; reflexivity|]. split; [vm_compute; reflexivity|].
  apply (C2_pre_release_precedes_final v_1_0_0 v_1_0_0_alpha);
    [reflexivity | reflexivity | reflexivity | reflexivity | discriminate].
Defined.

(** C3. Two Versions with the same main version and non-empty
    pre-releases, each with pre_release_len the length of its pre_release.
    (1) If the identifiers at the positions before [i] compare equal and
    those at [i] do not, [compare] returns the result of the identifier
    comparison at [i] (and raises what it raises).  (2) If the identifiers
    compare equal at every position both tuples have, the longer tuple is
    GREATER, the shorter LESS, and equal lengths give EQUAL.  (3) EQUAL is
    returned only for tuples of the same length. *)
Theorem C3_pre_release_comparison (a b : Version) :
  pre_release_len a = length (pre_release a) ->
  pre_release_len b = length (pre_release b) ->
  main_version a = main_version b ->
  pre_release a <> [] ->
  pre_release b <> [] ->
  (forall (i : nat) (x y : ident),
      (forall j xj yj, (j < i)%nat ->
         pre_release a !! j = Some xj -> pre_release b !! j = Some yj ->
         partial_compare xj yj = Ok 0) ->
      pre_release a !! i = Some x -> pre_release b !! i = Some y ->
      (forall r, partial_compare x y = Ok r -> r <> 0 ->
                 compare a (OVersion b) = Ok (VInt r))
      /\ (forall e, partial_compare x y = Raise e ->
                    compare a (OVersion b) = Raise e))
  /\ ((forall j xj yj,
         pre_release a !! j = Some xj -> pre_release b !! j = Some yj ->
         partial_compare xj yj = Ok 0) ->
      compare a (OVersion b) =
        Ok (if (length (pre_release b) <? length (pre_release a))%nat then GREATER
            else if (length (pre_release a) <? length (pre_release b))%nat then LESS
            else EQUAL))
  /\ (compare a (OVersion b) = Ok EQUAL ->
      length (pre_release a) = length (pre_release b)).
Proof.
  intros La Lb Hm Ha Hb. rewrite (compare_pre_release a b La Lb Hm Ha Hb).
  split; [|split].
  - intros i x y Hlt Hx Hy. split.
    + intros r Hr Hne. rewrite (scan_first_non_equal _ _ i x y r); auto.
    + intros e He. rewrite (scan_raises _ _ i x y e); auto.
  - intros Heq. rewrite scan_all_equal by exact Heq. unfold_bind.
    destruct (_ <? _)%nat; [reflexivity|]. destruct (_ <? _)%nat; reflexivity.
  - destruct (scan (pre_release a) (pre_release b)) as [[n|]|e] eqn:Hs; unfold_bind.
    + destruct (scan_some _ _ _ Hs) as [-> | ->]; discriminate.
    + destruct (Nat.ltb_spec (length (pre_release b)) (length (pre_release a)));
        [discriminate|].
      destruct (Nat.ltb_spec (length (pre_release a)) (length (pre_release b)));
        [discriminate|]. intros _. lia.
    + discriminate.
Qed.

Lemma C3_pre_release_comparison_witness :
  compare v_1_0_0_alpha_1 (OVersion v_1_0_0_alpha_beta) = Ok LESS
  /\ compare v_1_0_0_alpha_1 (OVersion v_1_0_0_alpha) = Ok GREATER
  /\ compare v_1_0_0_alpha (OVersion v_1_0_0_alpha) = Ok EQUAL.
Proof.
  split; [|split].
  - destruct (C3_pre_release_comparison v_1_0_0_alpha_1 v_1_0_0_alpha_beta)
      as [Hfirst _]; [reflexivity | reflexivity | reflexivity | discriminate | discriminate |].
    destruct (Hfirst 1%nat (IInt 1) (IStr "beta")) as [Hr _];
      [ intros [|j] xj yj Hj; [intros [= <-] [= <-]; reflexivity | lia]
      | reflexivity | reflexivity | ].
    apply (Hr (-1)); [reflexivity | lia].
  - destruct (C3_pre_release_comparison v_1_0_0_alpha_1 v_1_0_0_alpha)
      as [_ [Hall _]]; [reflexivity | reflexivity | reflexivity | discriminate | discriminate |].
    apply Hall. intros [|[|j]] xj yj; [intros [= <-] [= <-]; reflexivity | discriminate | discriminate].
  - destruct (C3_pre_release_comparison v_1_0_0_alpha v_1_0_0_alpha)
      as [_ [Hall _]]; [reflexivity | reflexivity | reflexivity | discriminate | discriminate |].
    apply Hall. intros [|j] xj yj; [intros [= <-] [= <-]; reflexivity | discriminate].
Defined.

(** ** What construction establishes *)

Lemma str_in_cases (s : string) (t : list string) :
  str_in s t = true -> In s t.
Proof.
  unfold str_in. intros H. apply existsb_exists in H as (x & Hx & Heq).
  apply String.eqb_eq in Heq. subst x. exact Hx.
Qed.

Lemma replace_shortening_canonical (s : string) (x : ident) :
  replace_shortening s = Ok x -> canonical x = true.
Proof.
  unfold replace_shortening.
  destruct (str_in s ["a"; "b"; "rc"; "c"]) eqn:Hshort.
  - apply str_in_cases in Hshort. cbn [In] in Hshort.
    destruct Hshort as [<-|[<-|[<-|[<-|[]]]]]; intros H; vm_compute in H;
      first [discriminate H | injection H as <-; reflexivity].
  - destruct (str_in s ["alpha"; "beta"; "release_candidate"; "release"]) eqn:Hfull;
      cbn [negb].
    + intros [= <-]. exact Hfull.
    + unfold_bind. destruct (int s); [intros [= <-]; reflexivity|discriminate].
Qed.

Lemma mapM_replace_shortening_canonical (l : list string) (xs : list ident) :
  mapM replace_shortening l = Ok xs -> forallb canonical xs = true.
Proof.
  revert xs. induction l as [|s l IH]; intros xs; cbn [mapM].
  - intros [= <-]. reflexivity.
  - unfold_bind. destruct (replace_shortening s) as [x|e] eqn:Hx; [|discriminate].
    destruct (mapM replace_shortening l) as [xs'|e]; [|discriminate].
    intros [= <-]. cbn [forallb].
    rewrite (replace_shortening_canonical s x Hx), (IH xs' eq_refl). reflexivity.
Qed.

Lemma constructed_well_formed (v : Version) : constructed v -> well_formed v.
Proof.
  intros [version Hv]. unfold __init__ in Hv. unfold_bind.
  destruct (parse version) as [[[[[major minor] patch] sh] df]|e]; [|discriminate].
  destruct (int_group major); [|discriminate].
  destruct (int_group minor); [|discriminate].
  destruct (int_group patch); [|discriminate].
  destruct sh as [sh|].
  - destruct (replace_shortening sh) as [x|e] eqn:Hx; [|discriminate].
    injection Hv as <-. split; [reflexivity|]. cbn [pre_release forallb].
    rewrite (replace_shortening_canonical sh x Hx). reflexivity.
  - destruct df as [d|].
    + destruct (mapM replace_shortening _) as [xs|e] eqn:Hxs; [|discriminate].
      injection Hv as <-. split; [reflexivity|].
      exact (mapM_replace_shortening_canonical _ _ Hxs).
    + injection Hv as <-. split; reflexivity.
Qed.

(** ** Symmetry of the comparator *)

Lemma partial_compare_flip (x y : ident) :
  canonical x = true -> canonical y = true ->
  exists r : Z, partial_compare x y = Ok r /\ partial_compare y x = Ok (- r).
Proof.
  destruct x as [n1|s1], y as [n2|s2]; cbn [canonical]; intros Hx Hy.
  - cbn [partial_compare]. rewrite !Z.gtb_ltb, (Z.eqb_sym n2 n1).
    destruct (Z.ltb_spec n2 n1), (Z.ltb_spec n1 n2), (Z.eqb_spec n1 n2);
      try lia; eexists; split; reflexivity.
  - exists (-1). split; reflexivity.
  - exists 1. split; reflexivity.
  - apply str_in_cases in Hx, Hy. cbn [In stage_order] in Hx, Hy.
    destruct Hx as [<-|[<-|[<-|[<-|[]]]]]; destruct Hy as [<-|[<-|[<-|[<-|[]]]]];
      eexists; split; vm_compute; reflexivity.
Qed.

Lemma scan_flip (xs ys : list ident) :
  forallb canonical xs = true -> forallb canonical ys = true ->
  exists r : option Z, scan xs ys = Ok r /\ scan ys xs = Ok (Z.opp <$> r).
Proof.
  revert ys. induction xs as [|x xs IH]; intros [|y ys] Hxs Hys;
    try (exists None; split; reflexivity).
  cbn [forallb] in Hxs, Hys.
  apply andb_true_iff in Hxs as [Hx Hxs]. apply andb_true_iff in Hys as [Hy Hys].
  destruct (partial_compare_flip x y Hx Hy) as (r & Hr & Hr').
  destruct (IH ys Hxs Hys) as (t & Ht & Ht').
  cbn [scan]. rewrite Hr, Hr'. unfold_bind.
  destruct (partial_compare_range _ _ _ Hr) as [->|[->| ->]]; cbn.
  - exists (Some 1). split; reflexivity.
  - exists t. split; assumption.
  - exists (Some (-1)). split; reflexivity.
Qed.

Lemma tuple_not_lt_gt (a b : Z * Z * Z) :
  tuple_gt a b = false -> tuple_lt a b = false -> a = b.
Proof.
  destruct a as [[a1 a2] a3], b as [[b1 b2] b3]. unfold tuple_gt, tuple_lt.
  rewrite !Z.gtb_ltb.
  destruct (Z.eqb_spec a1 b1), (Z.eqb_spec a2 b2); cbn [negb]; intros H1 H2;
    apply Z.ltb_ge in H1, H2; try lia. f_equal; [f_equal|]; lia.
Qed.

Lemma compare_flip (a b : Version) :
  well_formed a -> well_formed b ->
  exists n : Z,
    compare a (OVersion b) = Ok (VInt n)
    /\ compare b (OVersion a) = Ok (VInt (- n))
    /\ (n = 1 \/ n = 0 \/ n = -1).
Proof.
  intros [La Ca] [Lb Cb].
  destruct (tuple_gt (main_version a) (main_version b)) eqn:Hgt.
  { exists 1. unfold compare. cbn [as_Version]. rewrite Hgt.
    rewrite tuple_gt_lt in Hgt. rewrite tuple_gt_lt, (tuple_lt_asym _ _ Hgt), Hgt. auto. }
  destruct (tuple_lt (main_version a) (main_version b)) eqn:Hlt.
  { exists (-1). unfold compare. cbn [as_Version]. rewrite Hgt, Hlt, tuple_gt_lt, Hlt. auto. }
  pose proof (tuple_not_lt_gt _ _ Hgt Hlt) as Hm.
  destruct (pre_release a) as [|x xs] eqn:Ha, (pre_release b) as [|y ys] eqn:Hb.
  - exists 0. unfold compare. cbn [as_Version].
    rewrite Hm, tuple_gt_irrefl, tuple_lt_irrefl, La, Lb, Ha, Hb. auto.
  - exists 1. unfold compare. cbn [as_Version].
    rewrite Hm, tuple_gt_irrefl, tuple_lt_irrefl, La, Lb, Ha, Hb. auto.
  - exists (-1). unfold compare. cbn [as_Version].
    rewrite Hm, tuple_gt_irrefl, tuple_lt_irrefl, La, Lb, Ha, Hb. auto.
  - rewrite (compare_pre_release a b), (compare_pre_release b a); try congruence.
    rewrite Ha, Hb.
    destruct (scan_flip _ _ Ca Cb) as ([n|] & Hs & Hs'); rewrite Hs, Hs'; unfold_bind.
    + exists n. cbn. destruct (scan_some _ _ _ Hs) as [-> | ->]; auto.
    + cbn [fmap option_fmap option_map].
      destruct (Nat.ltb_spec (length (y :: ys)) (length (x :: xs))),
               (Nat.ltb_spec (length (x :: xs)) (length (y :: ys))); try lia.
      * exists 1. auto.
      * exists (-1). auto.
      * exists 0. auto.
Qed.

(** C6. For two constructed Versions, [compare a b] is GREATER exactly
    when [compare b a] is LESS. *)
Theorem C6_antisymmetry (a b : Version) :
  constructed a -> constructed b ->
  (compare a (OVersion b) = Ok GREATER <-> compare b (OVersion a) = Ok LESS).
Proof.
  intros Ha Hb.
  destruct (compare_flip a b (constructed_well_formed a Ha) (constructed_well_formed b Hb))
    as (n & -> & -> & Hn).
  unfold GREATER, LESS. split; intros [= H]; do 2 f_equal; lia.
Qed.

Lemma C6_antisymmetry_witness :
  compare v_1_0_0 (OVersion v_1_0_0_alpha) = Ok GREATER
  <-> compare v_1_0_0_alpha (OVersion v_1_0_0) = Ok LESS.
Proof.
  apply (C6_antisymmetry v_1_0_0 v_1_0_0_alpha).
  - exists "1.0.0". vm_compute. reflexivity.
  - exists "1.0.0-alpha". vm_compute. reflexivity.
Defined.

(** C9. Every element of the pre_release of a constructed Version is an
    integer or one of alpha, beta, release_candidate, release; hence on two
    constructed Versions the identifier comparison never fails on a
    priority lookup, and [compare] returns LESS, EQUAL or GREATER. *)
Theorem C9_constructed_invariant (a b : Version) :
  constructed a -> constructed b ->
  (forall x : ident, In x (pre_release a) ->
     (exists n : Z, x = IInt n)
     \/ x = IStr "alpha" \/ x = IStr "beta"
     \/ x = IStr "release_candidate" \/ x = IStr "release")
  /\ (forall x y : ident, In x (pre_release a) -> In y (pre_release b) ->
        exists r : Z, partial_compare x y = Ok r)
  /\ (compare a (OVersion b) = Ok LESS
      \/ compare a (OVersion b) = Ok EQUAL
      \/ compare a (OVersion b) = Ok GREATER).
Proof.
  intros Ha Hb.
  pose proof (constructed_well_formed a Ha) as Wa.
  pose proof (constructed_well_formed b Hb) as Wb.
  split; [|split].
  - intros x Hx. destruct Wa as [_ Ca].
    rewrite forallb_forall in Ca. specialize (Ca x Hx).
    destruct x as [n|s]; [left; eauto|right].
    apply str_in_cases in Ca. cbn [In stage_order] in Ca.
    destruct Ca as [<-|[<-|[<-|[<-|[]]]]]; auto.
  - intros x y Hx Hy. destruct Wa as [_ Ca], Wb as [_ Cb].
    rewrite forallb_forall in Ca, Cb.
    destruct (partial_compare_flip x y (Ca x Hx) (Cb y Hy)) as (r & Hr & _). eauto.
  - destruct (compare_flip a b Wa Wb) as (n & -> & _ & [->|[->| ->]]); auto.
Qed.

Lemma C9_constructed_invariant_witness :
  (forall x : ident, In x [IStr "alpha"; IInt 1] ->
     (exists n : Z, x = IInt n)
     \/ x = IStr "alpha" \/ x = IStr "beta"
     \/ x = IStr "release_candidate" \/ x = IStr "release")
  /\ (forall x y : ident, In x [IStr "alpha"; IInt 1] -> In y [IStr "alpha"; IStr "beta"] ->
        exists r : Z, partial_compare x y = Ok r)
  /\ (compare v_1_0_0_alpha_1 (OVersion v_1_0_0_alpha_beta) = Ok LESS
      \/ compare v_1_0_0_alpha_1 (OVersion v_1_0_0_alpha_beta) = Ok EQUAL
      \/ compare v_1_0_0_alpha_1 (OVersion v_1_0_0_alpha_beta) = Ok GREATER).
Proof.
  apply (C9_constructed_invariant v_1_0_0_alpha_1 v_1_0_0_alpha_beta).
  - exists "1.0.0-alpha.1". vm_compute. reflexivity.
  - exists "1.0.0-alpha.beta". vm_compute. reflexivity.
Defined.

(** ** Equality of Versions *)

Lemma ident_eq_true (x y : ident) : ident_eq x y = true <-> x = y.
Proof.
  destruct x as [n1|s1], y as [n2|s2]; cbn [ident_eq];
    try (split; [discriminate|congruence]).
  - rewrite Z.eqb_eq. split; congruence.
  - rewrite String.eqb_eq. split; congruence.
Qed.

Lemma idents_eq_true (xs ys : list ident) : idents_eq xs ys = true <-> xs = ys.
Proof.
  revert ys. induction xs as [|x xs IH]; intros [|y ys]; cbn [idents_eq];
    try (split; [discriminate|congruence]); [tauto|].
  rewrite andb_true_iff, ident_eq_true, IH. split; [intros [-> ->]; reflexivity|].
  intros [= -> ->]. split; reflexivity.
Qed.

Lemma tuple_eq_true (a b : Z * Z * Z) : tuple_eq a b = true <-> a = b.
Proof.
  destruct a as [[a1 a2] a3], b as [[b1 b2] b3]. unfold tuple_eq.
  rewrite !andb_true_iff, !Z.eqb_eq. split; [intros [[-> ->] ->]; reflexivity|].
  intros [= -> -> ->]. auto.
Qed.

Lemma eq_true_iff (a b : Version) :
  __eq__ a (OVersion b) = Ok (VBool true)
  <-> main_version a = main_version b /\ pre_release a = pre_release b.
Proof.
  unfold __eq__. cbn [as_Version]. rewrite <- tuple_eq_true, <- idents_eq_true.
  rewrite <- andb_true_iff. split; [intros [= H]; exact H|intros ->; reflexivity].
Qed.

(** ** The order of identifiers *)

Ltac each_stage H :=
  apply str_in_cases in H; cbn [In stage_order] in H;
  destruct H as [<-|[<-|[<-|[<-|[]]]]].

Lemma partial_compare_equal (x y : ident) :
  canonical x = true -> canonical y = true ->
  (partial_compare x y = Ok 0 <-> x = y).
Proof.
  destruct x as [n1|s1], y as [n2|s2]; cbn [canonical]; intros Hx Hy.
  - cbn [partial_compare]. rewrite Z.gtb_ltb.
    destruct (Z.ltb_spec n2 n1), (Z.eqb_spec n1 n2);
      split; intros E; try discriminate E; try lia; congruence.
  - split; discriminate.
  - split; discriminate.
  - each_stage Hx; each_stage Hy;
      split; intros H; vm_compute in H; try discriminate H; reflexivity.
Qed.

Lemma partial_compare_less_trans (x y z : ident) :
  canonical x = true -> canonical y = true -> canonical z = true ->
  partial_compare x y = Ok (-1) -> partial_compare y z = Ok (-1) ->
  partial_compare x z = Ok (-1).
Proof.
  destruct x as [n1|s1], y as [n2|s2], z as [n3|s3]; cbn [canonical];
    intros Hx Hy Hz; try reflexivity; try discriminate.
  - cbn [partial_compare]. rewrite !Z.gtb_ltb.
    destruct (Z.ltb_spec n2 n1), (Z.eqb_spec n1 n2); try discriminate.
    destruct (Z.ltb_spec n3 n2), (Z.eqb_spec n2 n3); try discriminate.
    destruct (Z.ltb_spec n3 n1), (Z.eqb_spec n1 n3); try lia. reflexivity.
  - each_stage Hx; each_stage Hy; each_stage Hz;
      intros H1 H2; vm_compute in H1, H2; try discriminate H1; try discriminate H2;
      reflexivity.
Qed.

(** ** The order of pre-release tuples *)

Lemma scan_cons (x y : ident) (xs ys : list ident) (r : Z) :
  partial_compare x y = Ok r ->
  scan (x :: xs) (y :: ys) =
    if r =? 1 then Ok (Some 1) else if r =? -1 then Ok (Some (-1)) else scan xs ys.
Proof. intros H. cbn [scan]. rewrite H. reflexivity. Qed.

Lemma scan_less_cons (x y : ident) (xs ys : list ident) :
  canonical x = true -> canonical y = true ->
  (scan_less (x :: xs) (y :: ys)
   <-> partial_compare x y = Ok (-1)
       \/ (partial_compare x y = Ok 0 /\ scan_less xs ys)).
Proof.
  intros Hx Hy. destruct (partial_compare_flip x y Hx Hy) as (r & Hr & _).
  unfold scan_less. rewrite (scan_cons x y xs ys r Hr), Hr. cbn [length].
  destruct (partial_compare_range _ _ _ Hr) as [->|[->| ->]]; cbn [Z.eqb Pos.eqb].
  - split; [intros [H|[H _]]; discriminate H|intros [H|[H _]]; discriminate H].
  - split; [intros [H|[H L]]; right; split; auto; right; split; auto; lia|].
    intros [H|[_ [H|[H L]]]]; [discriminate H|left; exact H|right; split; auto; lia].
  - split; auto.
Qed.

Lemma scan_less_trans (xs ys zs : list ident) :
  forallb canonical xs = true -> forallb canonical ys = true ->
  forallb canonical zs = true ->
  scan_less xs ys -> scan_less ys zs -> scan_less xs zs.
Proof.
  revert ys zs. induction xs as [|x xs IH]; intros ys zs Cx Cy Cz Hxy Hyz.
  - destruct ys as [|y ys].
    + destruct Hxy as [H|[_ H]]; [discriminate H|cbn in H; lia].
    + destruct zs as [|z zs].
      * destruct Hyz as [H|[_ H]]; [discriminate H|cbn in H; lia].
      * right. split; [reflexivity|cbn; lia].
  - destruct ys as [|y ys]; [destruct Hxy as [H|[_ H]]; [discriminate H|cbn in H; lia]|].
    destruct zs as [|z zs]; [destruct Hyz as [H|[_ H]]; [discriminate H|cbn in H; lia]|].
    cbn [forallb] in Cx, Cy, Cz.
    apply andb_true_iff in Cx as [Hx Cx]. apply andb_true_iff in Cy as [Hy Cy].
    apply andb_true_iff in Cz as [Hz Cz].
    apply scan_less_cons in Hxy; [|assumption..].
    apply scan_less_cons in Hyz; [|assumption..].
    apply scan_less_cons; [assumption..|].
    destruct Hxy as [Hxy|[Hxy Txy]], Hyz as [Hyz|[Hyz Tyz]].
    + left. exact (partial_compare_less_trans x y z Hx Hy Hz Hxy Hyz).
    + apply partial_compare_equal in Hyz as <-; auto.
    + apply partial_compare_equal in Hxy as ->; auto.
    + right. apply partial_compare_equal in Hxy as ->; [|assumption..].
      split; [exact Hyz|]. exact (IH ys zs Cx Cy Cz Txy Tyz).
Qed.

Lemma scan_equal (xs ys : list ident) :
  forallb canonical xs = true -> forallb canonical ys = true ->
  (scan xs ys = Ok None /\ length xs = length ys <-> xs = ys).
Proof.
  revert ys. induction xs as [|x xs IH]; intros [|y ys] Cx Cy;
    try (split; [intros [_ H]; discriminate H|discriminate]).
  - split; auto.
  - cbn [forallb] in Cx, Cy.
    apply andb_true_iff in Cx as [Hx Cx]. apply andb_true_iff in Cy as [Hy Cy].
    destruct (partial_compare_flip x y Hx Hy) as (r & Hr & _).
    rewrite (scan_cons x y xs ys r Hr). cbn [length].
    pose proof (partial_compare_equal x y Hx Hy) as Heq. rewrite Hr in Heq.
    destruct (partial_compare_range _ _ _ Hr) as [->|[->| ->]]; cbn [Z.eqb Pos.eqb].
    + split; [intros [H _]; discriminate H|]. intros [= -> ->].
      destruct Heq as [_ Heq]. specialize (Heq eq_refl). discriminate Heq.
    + destruct Heq as [Heq _]. rewrite (Heq eq_refl). split.
      * intros [Hs Hl]. f_equal. apply IH; [assumption..|]. split; [exact Hs|lia].
      * intros [= <-]. destruct (IH xs Cx Cx) as [_ H]. destruct (H eq_refl). auto.
    + split; [intros [H _]; discriminate H|]. intros [= -> ->].
      destruct Heq as [_ Heq]. specialize (Heq eq_refl). discriminate Heq.
Qed.

(** ** The order of Versions *)

Lemma tuple_lt_trans (a b c : Z * Z * Z) :
  tuple_lt a b = true -> tuple_lt b c = true -> tuple_lt a c = true.
Proof.
  destruct a as [[a1 a2] a3], b as [[b1 b2] b3], c as [[c1 c2] c3]. unfold tuple_lt.
  destruct (Z.eqb_spec a1 b1), (Z.eqb_spec a2 b2), (Z.eqb_spec b1 c1),
    (Z.eqb_spec b2 c2), (Z.eqb_spec a1 c1), (Z.eqb_spec a2 c2); cbn [negb];
    rewrite ?Z.ltb_lt; lia.
Qed.

Lemma tuple_lt_lex (a1 a2 a3 b1 b2 b3 : Z) :
  tuple_lt (a1, a2, a3) (b1, b2, b3) = true
  <-> a1 < b1 \/ (a1 = b1 /\ a2 < b2) \/ (a1 = b1 /\ a2 = b2 /\ a3 < b3).
Proof.
  unfold tuple_lt. destruct (Z.eqb_spec a1 b1), (Z.eqb_spec a2 b2); cbn [negb];
    rewrite Z.ltb_lt; lia.
Qed.

(* [compare] on two Versions whose pre_release_len is the length of their
   pre_release, with the loop in the form of [scan]. *)
Lemma compare_unfold (a b : Version) :
  pre_release_len a = length (pre_release a) ->
  pre_release_len b = length (pre_release b) ->
  compare a (OVersion b) =
    if tuple_gt (main_version a) (main_version b) then Ok GREATER
    else if tuple_lt (main_version a) (main_version b) then Ok LESS
    else match pre_release a, pre_release b with
         | [], [] => Ok EQUAL
         | [], _ :: _ => Ok GREATER
         | _ :: _, [] => Ok LESS
         | xs, ys =>
             r ← scan xs ys;
             match r with
             | Some n => Ok (VInt n)
             | None =>
                 if (length ys <? length xs)%nat then Ok GREATER
                 else if (length xs <? length ys)%nat then Ok LESS
                 else Ok EQUAL
             end
         end.
Proof.
  intros La Lb.
  destruct (tuple_gt (main_version a) (main_version b)) eqn:Hgt;
    [unfold compare; cbn [as_Version]; rewrite Hgt; reflexivity|].
  destruct (tuple_lt (main_version a) (main_version b)) eqn:Hlt;
    [unfold compare; cbn [as_Version]; rewrite Hgt, Hlt; reflexivity|].
  pose proof (tuple_not_lt_gt _ _ Hgt Hlt) as Hm.
  destruct (pre_release a) as [|x xs] eqn:Ha, (pre_release b) as [|y ys] eqn:Hb;
    try (unfold compare; cbn [as_Version]; rewrite Hgt, Hlt, La, Lb; reflexivity).
  rewrite (compare_pre_release a b); try congruence. rewrite Ha, Hb. reflexivity.
Qed.

Lemma compare_less_iff (a b : Version) :
  well_formed a -> well_formed b ->
  (compare a (OVersion b) = Ok LESS
   <-> tuple_lt (main_version a) (main_version b) = true
       \/ (main_version a = main_version b
           /\ pre_release_less (pre_release a) (pre_release b))).
Proof.
  intros [La Ca] [Lb Cb]. rewrite (compare_unfold a b La Lb).
  destruct (tuple_gt (main_version a) (main_version b)) eqn:Hgt.
  { rewrite tuple_gt_lt in Hgt. pose proof (tuple_lt_asym _ _ Hgt) as Hlt.
    split; [discriminate|]. intros [H|[H _]]; [congruence|].
    rewrite H, tuple_lt_irrefl in Hgt. discriminate. }
  destruct (tuple_lt (main_version a) (main_version b)) eqn:Hlt; [split; auto|].
  pose proof (tuple_not_lt_gt _ _ Hgt Hlt) as Hm.
  destruct (pre_release a) as [|x xs], (pre_release b) as [|y ys];
    cbn [pre_release_less].
  - split; [discriminate|]. intros [H|[_ []]]. discriminate.
  - split; [discriminate|]. intros [H|[_ []]]. discriminate.
  - split; auto.
  - unfold scan_less.
    destruct (scan_flip _ _ Ca Cb) as ([n|] & Hs & _); rewrite Hs; unfold_bind.
    + destruct (scan_some _ _ _ Hs) as [-> | ->].
      * split; [discriminate|]. intros [H|[_ [H|[H _]]]]; discriminate.
      * split; auto.
    + destruct (Nat.ltb_spec (length (y :: ys)) (length (x :: xs))),
               (Nat.ltb_spec (length (x :: xs)) (length (y :: ys)));
        (split; [intros E; try discriminate E; right; split; auto; right; split; auto
                |intros [E|[_ [E|[_ E]]]]; try discriminate E; try reflexivity; lia]).
Qed.

Lemma compare_equal_iff (a b : Version) :
  well_formed a -> well_formed b ->
  (compare a (OVersion b) = Ok EQUAL
   <-> main_version a = main_version b /\ pre_release a = pre_release b).
Proof.
  intros [La Ca] [Lb Cb]. rewrite (compare_unfold a b La Lb).
  destruct (tuple_gt (main_version a) (main_version b)) eqn:Hgt.
  { split; [discriminate|]. intros [H _]. rewrite H, tuple_gt_irrefl in Hgt. discriminate. }
  destruct (tuple_lt (main_version a) (main_version b)) eqn:Hlt.
  { split; [discriminate|]. intros [H _]. rewrite H, tuple_lt_irrefl in Hlt. discriminate. }
  pose proof (tuple_not_lt_gt _ _ Hgt Hlt) as Hm.
  destruct (pre_release a) as [|x xs], (pre_release b) as [|y ys];
    try (split; [discriminate|intros [_ H]; discriminate H]); [split; auto|].
  pose proof (scan_equal _ _ Ca Cb) as Heq.
  cbv beta iota zeta.
  destruct (scan_flip _ _ Ca Cb) as ([n|] & Hs & _); rewrite Hs; rewrite Hs in Heq;
    unfold_bind.
  - split.
    + destruct (scan_some _ _ _ Hs) as [-> | ->]; discriminate.
    + intros [_ H]. apply Heq in H as [H _]. discriminate H.
  - destruct (Nat.ltb_spec (length (y :: ys)) (length (x :: xs))),
             (Nat.ltb_spec (length (x :: xs)) (length (y :: ys)));
      (split; [intros E; first [discriminate E
                               |split; [exact Hm|apply Heq; split; [reflexivity|lia]]]
              |intros [_ E]; apply Heq in E as [_ E]; try reflexivity; lia]).
Qed.

Lemma lt_of_compare (a b : Version) (n : Z) :
  compare a (OVersion b) = Ok (VInt n) ->
  __lt__ a (OVersion b) = Ok (VBool (n =? -1)).
Proof. intros H. unfold __lt__. cbn [as_Version]. rewrite H. reflexivity. Qed.

Lemma Version_eq (a b : Version) :
  well_formed a -> well_formed b ->
  main_version a = main_version b -> pre_release a = pre_release b -> a = b.
Proof.
  intros [La _] [Lb _] Hm Hp. destruct a, b. cbn in *. subst. reflexivity.
Qed.

(** X1. A constructed Version compares EQUAL to itself, is [__eq__] to
    itself and is not [__lt__] itself. *)
Theorem compare_reflexive (v : Version) :
  constructed v ->
  compare v (OVersion v) = Ok EQUAL
  /\ __eq__ v (OVersion v) = Ok (VBool true)
  /\ __lt__ v (OVersion v) = Ok (VBool false).
Proof.
  intros Hv. pose proof (constructed_well_formed v Hv) as Wv.
  assert (H : compare v (OVersion v) = Ok EQUAL) by (apply compare_equal_iff; auto).
  split; [exact H|]. split; [apply eq_true_iff; auto|].
  rewrite (lt_of_compare v v 0 H). reflexivity.
Qed.

Lemma compare_reflexive_witness :
  compare v_1_0_0_alpha_1 (OVersion v_1_0_0_alpha_1) = Ok EQUAL
  /\ __eq__ v_1_0_0_alpha_1 (OVersion v_1_0_0_alpha_1) = Ok (VBool true)
  /\ __lt__ v_1_0_0_alpha_1 (OVersion v_1_0_0_alpha_1) = Ok (VBool false).
Proof.
  apply (compare_reflexive v_1_0_0_alpha_1).
  exists "1.0.0-alpha.1". vm_compute. reflexivity.
Defined.

(** X2. The main version decides first: when (major, minor, patch) of [a]
    is lexicographically below that of [b], [compare a b] is LESS and
    [compare b a] is GREATER whatever the pre-releases hold, and no
    identifier is compared (so nothing can raise). *)
Theorem main_version_decides (a b : Version) (a1 a2 a3 b1 b2 b3 : Z) :
  main_version a = (a1, a2, a3) ->
  main_version b = (b1, b2, b3) ->
  a1 < b1 \/ (a1 = b1 /\ a2 < b2) \/ (a1 = b1 /\ a2 = b2 /\ a3 < b3) ->
  compare a (OVersion b) = Ok LESS
  /\ compare b (OVersion a) = Ok GREATER
  /\ __lt__ a (OVersion b) = Ok (VBool true)
  /\ __lt__ b (OVersion a) = Ok (VBool false).
Proof.
  intros Ha Hb Hlex. apply tuple_lt_lex in Hlex. rewrite <- Ha, <- Hb in Hlex.
  assert (H1 : compare a (OVersion b) = Ok LESS).
  { unfold compare. cbn [as_Version].
    rewrite tuple_gt_lt, (tuple_lt_asym _ _ Hlex), Hlex. reflexivity. }
  assert (H2 : compare b (OVersion a) = Ok GREATER).
  { unfold compare. cbn [as_Version]. rewrite tuple_gt_lt, Hlex. reflexivity. }
  split; [exact H1|]. split; [exact H2|].
  rewrite (lt_of_compare a b (-1) H1), (lt_of_compare b a 1 H2). split; reflexivity.
Qed.

Lemma main_version_decides_witness :
  compare v_1_2_0_release (OVersion v_1_10_0_alpha_1) = Ok LESS
  /\ compare v_1_10_0_alpha_1 (OVersion v_1_2_0_release) = Ok GREATER
  /\ __lt__ v_1_2_0_release (OVersion v_1_10_0_alpha_1) = Ok (VBool true)
  /\ __lt__ v_1_10_0_alpha_1 (OVersion v_1_2_0_release) = Ok (VBool false).
Proof.
  apply (main_version_decides v_1_2_0_release v_1_10_0_alpha_1 1 2 0 1 10 0);
    [reflexivity|reflexivity|].
  right. left. split; [reflexivity|lia].
Defined.

(** X3. On constructed Versions the comparator and equality agree:
    [compare a b] is EQUAL exactly when [a.__eq__(b)] is True, and exactly
    when the two Versions have the same main version and the same
    pre-release (they are the same value). *)
Theorem compare_equal_iff_eq (a b : Version) :
  constructed a -> constructed b ->
  (compare a (OVersion b) = Ok EQUAL <-> __eq__ a (OVersion b) = Ok (VBool true))
  /\ (compare a (OVersion b) = Ok EQUAL <-> a = b).
Proof.
  intros Ha Hb.
  pose proof (constructed_well_formed a Ha) as Wa.
  pose proof (constructed_well_formed b Hb) as Wb.
  rewrite (compare_equal_iff a b Wa Wb), eq_true_iff. split; [tauto|].
  split; [intros [Hm Hp]; apply Version_eq; assumption|intros ->; auto].
Qed.

Lemma compare_equal_iff_eq_witness :
  (compare v_1_0_0_alpha (OVersion v_1_0_0_alpha_1) = Ok EQUAL
   <-> __eq__ v_1_0_0_alpha (OVersion v_1_0_0_alpha_1) = Ok (VBool true))
  /\ (compare v_1_0_0_alpha (OVersion v_1_0_0_alpha_1) = Ok EQUAL
      <-> v_1_0_0_alpha = v_1_0_0_alpha_1).
Proof.
  apply (compare_equal_iff_eq v_1_0_0_alpha v_1_0_0_alpha_1).
  - exists "1.0.0a". vm_compute. reflexivity.
  - exists "1.0.0-alpha.1". vm_compute. reflexivity.
Defined.

Lemma pre_release_less_trans (xs ys zs : list ident) :
  forallb canonical xs = true -> forallb canonical ys = true ->
  forallb canonical zs = true ->
  pre_release_less xs ys -> pre_release_less ys zs -> pre_release_less xs zs.
Proof.
  intros Cx Cy Cz. destruct xs as [|x xs]; [intros []|].
  destruct ys as [|y ys]; [intros _ []|].
  destruct zs as [|z zs]; [intros _ _; exact I|].
  cbn [pre_release_less]. apply scan_less_trans; assumption.
Qed.

(** X4. [compare] is transitive on constructed Versions: if [a] is LESS
    than [b] and [b] is LESS than [c], then [a] is LESS than [c]; the same
    holds for [__lt__]. *)
Theorem compare_transitive (a b c : Version) :
  constructed a -> constructed b -> constructed c ->
  compare a (OVersion b) = Ok LESS ->
  compare b (OVersion c) = Ok LESS ->
  compare a (OVersion c) = Ok LESS
  /\ __lt__ a (OVersion c) = Ok (VBool true).
Proof.
  intros Ha Hb Hc Hab Hbc.
  pose proof (constructed_well_formed a Ha) as Wa.
  pose proof (constructed_well_formed b Hb) as Wb.
  pose proof (constructed_well_formed c Hc) as Wc.
  assert (H : compare a (OVersion c) = Ok LESS).
  { apply compare_less_iff in Hab; [|assumption..].
    apply compare_less_iff in Hbc; [|assumption..].
    apply compare_less_iff; [assumption..|].
    destruct Hab as [Hab|[Mab Pab]], Hbc as [Hbc|[Mbc Pbc]].
    - left. exact (tuple_lt_trans _ _ _ Hab Hbc).
    - left. rewrite <- Mbc. exact Hab.
    - left. rewrite Mab. exact Hbc.
    - right. split; [congruence|].
      destruct Wa as [_ Ca], Wb as [_ Cb], Wc as [_ Cc].
      exact (pre_release_less_trans _ _ _ Ca Cb Cc Pab Pbc). }
  split; [exact H|]. rewrite (lt_of_compare a c (-1) H). reflexivity.
Qed.

Lemma compare_transitive_witness :
  compare v_1_0_0_alpha (OVersion v_1_0_0) = Ok LESS
  /\ __lt__ v_1_0_0_alpha (OVersion v_1_0_0) = Ok (VBool true).
Proof.
  apply (compare_transitive v_1_0_0_alpha v_1_0_0_alpha_1 v_1_0_0).
  - exists "1.0.0a". vm_compute. reflexivity.
  - exists "1.0.0-alpha.1". vm_compute. reflexivity.
  - exists "1.0.0". vm_compute. reflexivity.
  - vm_compute. reflexivity.
  - vm_compute. reflexivity.
Defined.

(** ** The operators on constructed Versions *)

Lemma operators_cases (a b : Version) :
  well_formed a -> well_formed b ->
  exists lt eq gt : bool,
    op_lt a (OVersion b) = Ok (VBool lt)
    /\ op_eq a (OVersion b) = Ok (VBool eq)
    /\ op_gt a (OVersion b) = Ok (VBool gt)
    /\ op_ne a (OVersion b) = Ok (VBool (negb eq))
    /\ op_lt b (OVersion a) = Ok (VBool gt)
    /\ ((lt = true /\ eq = false /\ gt = false)
        \/ (lt = false /\ eq = true /\ gt = false)
        \/ (lt = false /\ eq = false /\ gt = true)).
Proof.
  intros Wa Wb.
  destruct (compare_flip a b Wa Wb) as (n & Hab & Hba & Hn).
  pose proof (compare_equal_iff a b Wa Wb) as Heq. rewrite <- eq_true_iff in Heq.
  pose proof (lt_of_compare a b n Hab) as Lab.
  pose proof (lt_of_compare b a (- n) Hba) as Lba.
  assert (E : exists eq : bool, __eq__ a (OVersion b) = Ok (VBool eq))
    by (unfold __eq__; cbn [as_Version]; eauto).
  destruct E as [eq E].
  exists (n =? -1), eq, (- n =? -1).
  unfold op_lt, op_eq, op_gt, op_ne. rewrite Lab, Lba, E. unfold_bind. cbn [truthy].
  repeat (split; [reflexivity|]).
  rewrite Hab, E in Heq.
  destruct Hn as [->|[->| ->]]; cbn [Z.opp Z.eqb Pos.eqb].
  - right. right. repeat split. destruct eq; [|reflexivity].
    destruct Heq as [_ Heq]. discriminate (Heq eq_refl).
  - right. left. repeat split. destruct Heq as [Heq _].
    specialize (Heq eq_refl). congruence.
  - left. repeat split. destruct eq; [|reflexivity].
    destruct Heq as [_ Heq]. discriminate (Heq eq_refl).
Qed.

(** X5. For two constructed Versions exactly one of [a < b], [a == b] and
    [a > b] is True, none of the operators raises, [a > b] is [b < a], and
    [a != b] is the negation of [a == b]. *)
Theorem operators_trichotomy (a b : Version) :
  constructed a -> constructed b ->
  exists lt eq gt : bool,
    op_lt a (OVersion b) = Ok (VBool lt)
    /\ op_eq a (OVersion b) = Ok (VBool eq)
    /\ op_gt a (OVersion b) = Ok (VBool gt)
    /\ op_ne a (OVersion b) = Ok (VBool (negb eq))
    /\ op_lt b (OVersion a) = Ok (VBool gt)
    /\ ((lt = true /\ eq = false /\ gt = false)
        \/ (lt = false /\ eq = true /\ gt = false)
        \/ (lt = false /\ eq = false /\ gt = true)).
Proof.
  intros Ha Hb. apply operators_cases; apply constructed_well_formed; assumption.
Qed.

Lemma operators_trichotomy_witness :
  exists lt eq gt : bool,
    op_lt v_1_0_0_alpha (OVersion v_1_0_0) = Ok (VBool lt)
    /\ op_eq v_1_0_0_alpha (OVersion v_1_0_0) = Ok (VBool eq)
    /\ op_gt v_1_0_0_alpha (OVersion v_1_0_0) = Ok (VBool gt)
    /\ op_ne v_1_0_0_alpha (OVersion v_1_0_0) = Ok (VBool (negb eq))
    /\ op_lt v_1_0_0 (OVersion v_1_0_0_alpha) = Ok (VBool gt)
    /\ ((lt = true /\ eq = false /\ gt = false)
        \/ (lt = false /\ eq = true /\ gt = false)
        \/ (lt = false /\ eq = false /\ gt = true)).
Proof.
  apply (operators_trichotomy v_1_0_0_alpha v_1_0_0).
  - exists "1.0.0-alpha". vm_compute. reflexivity.
  - exists "1.0.0". vm_compute. reflexivity.
Defined.

(** ** The self-test [main] *)


Lemma op_lt_true_iff (a b : Version) :
  op_lt a (OVersion b) = Ok (VBool true) <-> compare a (OVersion b) = Ok LESS.
Proof.
  unfold op_lt, __lt__. cbn [as_Version]. unfold_bind.
  destruct (compare a (OVersion b)) as [[n| |]|e]; cbn [value_eq_int];
    try (split; discriminate).
  - destruct (Z.eqb_spec n (-1)) as [->|Hn]; [split; reflexivity|].
    split; [discriminate|]. intros [= ->]. destruct (Hn eq_refl).
  - destruct b0; split; discriminate.
Qed.

Lemma op_gt_lt (a b : Version) : op_gt b (OVersion a) = op_lt a (OVersion b).
Proof. reflexivity. Qed.

Lemma pair_passes (a b : Version) (rest : outcome) :
  well_formed a -> well_formed b ->
  assert_then (op_lt a (OVersion b)) "le failed"
    (assert_then (op_gt b (OVersion a)) "ge failed"
       (assert_then (op_ne b (OVersion a)) "neq failed" rest)) = Returned
  <-> compare a (OVersion b) = Ok LESS /\ rest = Returned.
Proof.
  intros Wa Wb. rewrite op_gt_lt, <- op_lt_true_iff.
  destruct (operators_cases b a Wb Wa) as (lt & eq & gt & _ & _ & _ & Hne & Hlt & Hx).
  rewrite Hne, Hlt. unfold assert_then. cbn [truthy].
  destruct gt.
  - assert (eq = false) as -> by (destruct Hx as [H|[H|H]]; destruct H as (?&?&?); congruence).
    cbn [negb]. tauto.
  - split; [discriminate|]. intros [H _]. discriminate H.
Qed.

(** X6. The loop of [main] returns normally exactly when, for every pair
    of the list, both strings construct a Version and the first compares
    LESS than the second; in particular [main], on its six pairs, returns
    without a failed assertion or an exception. *)
Theorem main_loop_returns (tests : list (string * string)) :
  (main_loop tests = Returned <-> Forall pair_in_order tests)
  /\ main = Returned.
Proof.
  split; [|vm_compute; reflexivity].
  induction tests as [|[version_1 version_2] tests IH].
  - split; [constructor|reflexivity].
  - cbn [main_loop]. rewrite Forall_cons. unfold pair_in_order at 1. cbn [fst snd].
    destruct (__init__ version_1) as [a|e] eqn:Ia.
    2:{ split; [discriminate|]. intros [(a & b & H & _) _]. discriminate H. }
    destruct (__init__ version_2) as [b|e] eqn:Ib.
    2:{ split; [discriminate|]. intros [(a' & b & _ & H & _) _]. discriminate H. }
    assert (Wa : well_formed a) by (apply constructed_well_formed; eexists; exact Ia).
    assert (Wb : well_formed b) by (apply constructed_well_formed; eexists; exact Ib).
    unfold_bind. rewrite (pair_passes a b _ Wa Wb), IH. split.
    + intros [H1 H2]. split; [|exact H2]. exists a, b. auto.
    + intros [(a' & b' & [= <-] & [= <-] & H1) H2]. auto.
Qed.

(** ** Strings outside the priority table *)

Lemma priority_of_stage (s : string) :
  _PRIORITY !! s = None <-> is_stage s = false.
Proof.
  split.
  - intros Hnone. destruct (is_stage s) eqn:Hs; [|reflexivity].
    each_stage Hs; vm_compute in Hnone; discriminate Hnone.
  - intros Hs. unfold _PRIORITY.
    rewrite !lookup_insert_ne by (intros <-; vm_compute in Hs; discriminate Hs).
    rewrite lookup_empty. reflexivity.
Qed.

(** X7. Comparing two strings of which one is not a stage name raises
    KeyError, naming the first of the two that is missing from the
    priority table. *)
Theorem partial_compare_unknown_stage (s1 s2 : string) :
  is_stage s1 = false \/ is_stage s2 = false ->
  partial_compare (IStr s1) (IStr s2)
  = Raise (KeyError (if is_stage s1 then s2 else s1)).
Proof.
  intros H. cbn [partial_compare]. unfold getitem.
  destruct (is_stage s1) eqn:H1.
  - destruct H as [H|H2]; [discriminate H|].
    destruct (_PRIORITY !! s1) as [p1|] eqn:P1;
      [|apply priority_of_stage in P1; congruence].
    apply priority_of_stage in H2. rewrite H2. reflexivity.
  - apply priority_of_stage in H1. rewrite H1. reflexivity.
Qed.

Lemma partial_compare_unknown_stage_witness :
  partial_compare (IStr "alpha") (IStr "rc") = Raise (KeyError "rc").
Proof.
  apply (partial_compare_unknown_stage "alpha" "rc"). right. reflexivity.
Defined.

(** ** Strings the grammar rejects *)

Lemma nonzero_is_digit (c : ascii) : is_nonzero_digit c = true -> is_digit c = true.
Proof.
  unfold is_nonzero_digit, is_digit, char_between.
  intros [H1 H2]%andb_true_iff. apply andb_true_iff. split; [|exact H2].
  apply Nat.leb_le in H1. apply Nat.leb_le.
  change (nat_of_ascii "1") with 49%nat in H1.
  change (nat_of_ascii "0") with 48%nat. lia.
Qed.

Lemma numeric_needs_digit (subject s : string) (g : groups)
      (k : string -> groups -> option groups) :
  starts_with is_digit s = false -> match_here subject numeric s g k = None.
Proof.
  intros Hs. unfold numeric. destruct s as [|c s]; [reflexivity|].
  cbn [starts_with] in Hs. cbn [match_here strip_prefix].
  destruct (Ascii.eqb_spec "0" c) as [<-|_]; [discriminate Hs|].
  destruct (is_nonzero_digit c) eqn:Hc; [|reflexivity].
  apply nonzero_is_digit in Hc. congruence.
Qed.

Lemma numeric_leading_zero (subject : string) (d : ascii) (rest : string) (g : groups)
      (k : string -> groups -> option groups) :
  (forall c t g', is_digit c = true -> k (String c t) g' = None) ->
  is_digit d = true ->
  match_here subject numeric ("0" ++ String d rest) g k = None.
Proof.
  intros Hk Hd. unfold numeric.
  change ("0" ++ String d rest)%string with (String "0" (String d rest)).
  cbn [match_here strip_prefix]. change (Ascii.eqb "0" "0") with true. cbv iota.
  rewrite (Hk d rest g Hd). reflexivity.
Qed.

Lemma group_leading_zero (subject name : string) (d : ascii) (rest : string) (g : groups)
      (k : string -> groups -> option groups) :
  (forall c t g', is_digit c = true -> k (String c t) g' = None) ->
  is_digit d = true ->
  match_here subject (Group name numeric) ("0" ++ String d rest) g k = None.
Proof.
  intros Hk Hd. rewrite match_group. apply numeric_leading_zero; [|exact Hd].
  intros c t g' Hc. apply Hk, Hc.
Qed.

(** X8. A version string must begin with a digit: every other string, the
    empty one included, makes construction raise the invalid-format
    error. *)
Theorem must_start_with_digit (version : string) :
  starts_with is_digit version = false ->
  __init__ version = Raise (invalid_format version).
Proof.
  intros Hs. unfold __init__, parse, re_match, _REGEXP.
  rewrite !match_seq, match_bol, match_group, numeric_needs_digit by exact Hs.
  reflexivity.
Qed.

Lemma must_start_with_digit_witness :
  __init__ "" = Raise (invalid_format "")
  /\ __init__ "v1.0.0" = Raise (invalid_format "v1.0.0")
  /\ __init__ " 1.0.0" = Raise (invalid_format " 1.0.0").
Proof.
  split; [|split]; apply must_start_with_digit; reflexivity.
Defined.

(** X9. Leading zeros are rejected in each of the three numbers: a 0
    followed by one more digit, as major, minor or patch, makes
    construction raise the invalid-format error whatever follows. *)
Theorem leading_zero_rejected (X Y : string) (d : ascii) (rest : string) :
  is_numeral X = true -> is_numeral Y = true -> is_digit d = true ->
  let major_0 := ("0" ++ String d rest)%string in
  let minor_0 := (X ++ "." ++ "0" ++ String d rest)%string in
  let patch_0 := (X ++ "." ++ Y ++ "." ++ "0" ++ String d rest)%string in
  __init__ major_0 = Raise (invalid_format major_0)
  /\ __init__ minor_0 = Raise (invalid_format minor_0)
  /\ __init__ patch_0 = Raise (invalid_format patch_0).
Proof.
  intros HX HY Hd major_0 minor_0 patch_0.
  assert (Hdot : forall subject c t g' k, is_digit c = true ->
            match_here subject (Lit ".") (String c t) g' k = None)
    by (intros; apply match_dot_digit; assumption).
  repeat split; unfold __init__, parse, re_match, _REGEXP;
    rewrite !match_seq, match_bol.
  - subst major_0. rewrite group_leading_zero; [reflexivity| |exact Hd].
    intros c t g' Hc. apply Hdot, Hc.
  - rewrite (match_group_numeric minor_0 "major" "" X ("." ++ "0" ++ String d rest));
      [|reflexivity|intros c t g' Hc; apply Hdot, Hc|exact HX|reflexivity].
    rewrite match_dot, group_leading_zero; [reflexivity| |exact Hd].
    intros c t g' Hc. apply Hdot, Hc.
  - rewrite (match_group_numeric patch_0 "major" "" X
               ("." ++ Y ++ "." ++ "0" ++ String d rest));
      [|reflexivity|intros c t g' Hc; apply Hdot, Hc|exact HX|reflexivity].
    rewrite match_dot.
    rewrite (match_group_numeric patch_0 "minor" (X ++ ".") Y
               ("." ++ "0" ++ String d rest));
      [|subst patch_0; rewrite !append_assoc; reflexivity
       |intros c t g' Hc; apply Hdot, Hc|exact HY|reflexivity].
    rewrite match_dot, group_leading_zero; [reflexivity| |exact Hd].
    intros c t g' Hc. apply match_pre_release_digit, Hc.
Qed.

Lemma leading_zero_rejected_witness :
  __init__ "01.2.3" = Raise (invalid_format "01.2.3")
  /\ __init__ "1.01.0" = Raise (invalid_format "1.01.0")
  /\ __init__ "1.2.01.0" = Raise (invalid_format "1.2.01.0").
Proof.
  split; [|split].
  - apply (leading_zero_rejected "1" "2" "1" ".2.3"); reflexivity.
  - apply (leading_zero_rejected "1" "2" "1" ".0"); reflexivity.
  - apply (leading_zero_rejected "1" "2" "1" ".0"); reflexivity.
Defined.

(** ** Final releases and the trailing newline *)

Lemma parse_final (X Y Z nl : string) :
  is_numeral X = true -> is_numeral Y = true -> is_numeral Z = true ->
  nl = "" \/ nl = newline ->
  parse (X ++ "." ++ Y ++ "." ++ Z ++ nl) = Ok (Some X, Some Y, Some Z, None, None).
Proof.
  intros HX HY HZ Hnl. unfold parse, re_match.
  rewrite match_main_version by (assumption || (destruct Hnl as [-> | ->]; reflexivity)).
  destruct Hnl as [-> | ->]; cbn -[matched_text insert lookup]; vm_compute; reflexivity.
Qed.


(** X10. Every string X.Y.Z of three numbers without leading zeros
    constructs a final release: main_version holds the three numbers, none
    negative, and pre_release is empty. *)
Theorem final_release_accepted (X Y Z : string) :
  is_numeral X = true -> is_numeral Y = true -> is_numeral Z = true ->
  exists x y z : BinNums.Z,
    int X = Ok x /\ int Y = Ok y /\ int Z = Ok z
    /\ 0 <= x /\ 0 <= y /\ 0 <= z
    /\ __init__ (X ++ "." ++ Y ++ "." ++ Z) = Ok (mkVersion (x, y, z) [] 0).
Proof.
  intros HX HY HZ.
  destruct (int_numeral X HX) as (x & Hx & Px).
  destruct (int_numeral Y HY) as (y & Hy & Py).
  destruct (int_numeral Z HZ) as (z & Hz & Pz).
  exists x, y, z. repeat (split; [assumption|]).
  pose proof (parse_final X Y Z "" HX HY HZ (or_introl eq_refl)) as Hp.
  assert (E : (Z ++ "")%string = Z)
    by (clear; induction Z as [|c Z IH]; [reflexivity|];
        change (String c (Z ++ "") = String c Z); f_equal; exact IH).
  rewrite E in Hp. unfold __init__. rewrite Hp. unfold_bind. cbn [int_group].
  rewrite Hx, Hy, Hz. reflexivity.
Qed.

Lemma final_release_accepted_witness :
  exists x y z : BinNums.Z,
    int "10" = Ok x /\ int "0" = Ok y /\ int "42" = Ok z
    /\ 0 <= x /\ 0 <= y /\ 0 <= z
    /\ __init__ "10.0.42" = Ok (mkVersion (x, y, z) [] 0).
Proof.
  apply (final_release_accepted "10" "0" "42"); reflexivity.
Defined.



(** ** What every accepted string looks like *)

Lemma strip_prefix_inv (p s s' : string) :
  strip_prefix p s = Some s' -> s = (p ++ s')%string.
Proof.
  revert s. induction p as [|a p IH]; intros s; cbn [strip_prefix].
  - intros [= ->]. reflexivity.
  - destruct s as [|b s]; [discriminate|].
    destruct (Ascii.eqb_spec a b) as [->|_]; [|discriminate].
    intros H. apply IH in H as ->. reflexivity.
Qed.

Section Inversion.
Variable subject : string.
Implicit Types (r : regex) (s : string) (g m : groups)
         (k : string -> groups -> option groups).

(* A match goes on to the rest of the pattern once, and a group outside the
   pattern matched is as it was. *)
Lemma match_here_keeps r : forall s g k m,
  match_here subject r s g k = Some m ->
  exists s' g', k s' g' = Some m
    /\ forall key : string, ~ In key (group_names r) -> g' !! key = g !! key.
Proof.
  induction r as [p|p|r1 IH1 r2 IH2|r1 IH1 r2 IH2|r1 IH1|r1 IH1|name r1 IH1| |];
    intros s g k m H; cbn [match_here group_names] in H |- *.
  - destruct (strip_prefix p s) as [s'|]; [|discriminate]. eauto.
  - destruct s as [|c s]; [discriminate|]. destruct (p c); [|discriminate]. eauto.
  - apply IH1 in H as (s1 & g1 & H & K1). apply IH2 in H as (s2 & g2 & H & K2).
    exists s2, g2. split; [exact H|]. intros key Hk.
    rewrite K2, K1; [reflexivity| |]; intros Hin; apply Hk, in_or_app; auto.
  - destruct (match_here subject r1 s g k) as [m'|] eqn:E.
    + injection H as ->. apply IH1 in E as (s1 & g1 & E & K1).
      exists s1, g1. split; [exact E|]. intros key Hk. apply K1.
      intros Hin. apply Hk, in_or_app. auto.
    + apply IH2 in H as (s2 & g2 & H & K2).
      exists s2, g2. split; [exact H|]. intros key Hk. apply K2.
      intros Hin. apply Hk, in_or_app. auto.
  - destruct (match_here subject r1 s g k) as [m'|] eqn:E.
    + injection H as ->. apply IH1 in E. exact E.
    + eauto.
  - revert H. generalize (String.length s) at 1. intros fuel. revert s g.
    induction fuel as [|fuel IHf]; intros s g H; [eauto|].
    match type of H with
    | match ?M with _ => _ end = _ => destruct M as [m'|] eqn:E
    end; [|eauto].
    injection H as ->. apply IH1 in E as (s1 & g1 & E & K1).
    destruct (String.length s1 <? String.length s)%nat; [|discriminate].
    apply IHf in E as (s2 & g2 & E & K2).
    exists s2, g2. split; [exact E|]. intros key Hk. rewrite K2, K1 by exact Hk.
    reflexivity.
  - apply IH1 in H as (s1 & g1 & H & K1). eexists _, _. split; [exact H|].
    intros key Hk. rewrite lookup_insert_ne by (intros ->; apply Hk; left; reflexivity).
    apply K1. intros Hin. apply Hk. right. exact Hin.
  - destruct (_ =? _)%nat; [|discriminate]. eauto.
  - destruct (at_end s); [|discriminate]. eauto.
Qed.

Lemma lit_inv (p : string) s g k m :
  match_here subject (Lit p) s g k = Some m ->
  exists s', s = (p ++ s')%string /\ k s' g = Some m.
Proof.
  cbn [match_here]. destruct (strip_prefix p s) as [s'|] eqn:E; [|discriminate].
  apply strip_prefix_inv in E. eauto.
Qed.

Lemma star_class_inv (p : ascii -> bool) s g k m :
  match_here subject (Star (Class p)) s g k = Some m ->
  exists ds rest, s = (ds ++ rest)%string /\ all_chars p ds = true
                  /\ k rest g = Some m.
Proof.
  induction s as [|c s IH].
  - rewrite star_class_stop by reflexivity. intros H. exists "", "". auto.
  - destruct (p c) eqn:Hc.
    + rewrite star_class_step by exact Hc.
      destruct (match_here subject (Star (Class p)) s g k) as [m'|] eqn:E.
      * intros [= ->]. destruct (IH eq_refl) as (ds & rest & -> & Hds & Hk).
        exists (String c ds), rest. cbn [all_chars]. rewrite Hc, Hds. auto.
      * intros H. exists "", (String c s). auto.
    + rewrite star_class_stop by exact Hc. intros H. exists "", (String c s). auto.
Qed.

Lemma numeric_inv s g k m :
  match_here subject numeric s g k = Some m ->
  exists X rest, s = (X ++ rest)%string /\ is_numeral X = true /\ k rest g = Some m.
Proof.
  unfold numeric. cbn [match_here strip_prefix].
  destruct s as [|c s]; [discriminate|].
  destruct (Ascii.eqb_spec "0" c) as [<-|Hc].
  - change (is_nonzero_digit "0") with false. cbv iota.
    destruct (k s g) as [m'|] eqn:E; [|discriminate].
    intros [= ->]. exists "0", s. auto.
  - destruct (is_nonzero_digit c) eqn:Hnz; [|discriminate].
    intros H. apply star_class_inv in H as (ds & rest & -> & Hds & Hk).
    exists (String c ds), rest. cbn [is_numeral].
    destruct (Ascii.eqb_spec c "0") as [->|_]; [destruct (Hc eq_refl)|].
    rewrite Hnz, Hds. auto.
Qed.

Lemma group_numeric_inv (name before : string) s g k m :
  subject = (before ++ s)%string ->
  match_here subject (Group name numeric) s g k = Some m ->
  exists X rest, s = (X ++ rest)%string /\ is_numeral X = true
                 /\ k rest (<[name := X]> g) = Some m.
Proof.
  intros Hs H. rewrite match_group in H.
  apply numeric_inv in H as (X & rest & -> & HX & H).
  rewrite Hs, matched_text_middle in H. eauto.
Qed.
End Inversion.

(* A string the pattern matches begins with three numbers without leading
   zeros separated by dots, and these are its groups major, minor and
   patch. *)
Lemma regexp_inv (version : string) (m : groups) :
  re_match _REGEXP version = Some m ->
  exists X Y Z t : string,
    version = (X ++ "." ++ Y ++ "." ++ Z ++ t)%string
    /\ is_numeral X = true /\ is_numeral Y = true /\ is_numeral Z = true
    /\ m !! "major" = Some X /\ m !! "minor" = Some Y /\ m !! "patch" = Some Z.
Proof.
  unfold re_match, _REGEXP. rewrite !match_seq, match_bol. intros H.
  apply (group_numeric_inv version "major" "") in H as (X & r1 & E1 & HX & H);
    [|reflexivity].
  apply lit_inv in H as (r1' & -> & H).
  apply (group_numeric_inv version "minor" (X ++ ".")) in H as (Y & r2 & -> & HY & H);
    [|rewrite E1, !append_assoc; reflexivity].
  apply lit_inv in H as (r2' & -> & H).
  apply (group_numeric_inv version "patch" (X ++ "." ++ Y ++ ".")) in H
    as (Z & t & -> & HZ & H); [|rewrite E1, !append_assoc; reflexivity].
  apply match_here_keeps in H as (s' & g' & H & K).
  cbn [match_here] in H. destruct (at_end s'); [|discriminate]. injection H as <-.
  exists X, Y, Z, t. split; [exact E1|]. repeat (split; [assumption|]).
  assert (Hout : forall key, In key ["major"; "minor"; "patch"] ->
            ~ In key (group_names (Group "pre_release" pre_release_re))).
  { intros key Hkey Hin. cbn in Hkey, Hin.
    destruct Hkey as [<-|[<-|[<-|[]]]];
      destruct Hin as [Hin|[Hin|[Hin|[]]]]; discriminate Hin. }
  rewrite !K by (apply Hout; cbn [In]; tauto).
  repeat split; vm_compute; reflexivity.
Qed.

Lemma parse_shape_aux (version : string) :
  match parse version with
  | Raise e => e = invalid_format version
  | Ok (major, minor, patch, _, _) =>
      exists X Y Z t : string,
        version = (X ++ "." ++ Y ++ "." ++ Z ++ t)%string
        /\ is_numeral X = true /\ is_numeral Y = true /\ is_numeral Z = true
        /\ major = Some X /\ minor = Some Y /\ patch = Some Z
  end.
Proof.
  unfold parse. destruct (re_match _REGEXP version) as [m|] eqn:Hm; [|reflexivity].
  apply regexp_inv in Hm as (X & Y & Z & t & E & HX & HY & HZ & -> & -> & ->).
  exists X, Y, Z, t. auto 10.
Qed.

(** X12. What [parse] returns: it raises nothing but the invalid-format
    error for its argument, and when it returns, the string begins with
    three numbers without leading zeros separated by dots, which are the
    first three components of the result. *)
Theorem parse_shape (version : string) :
  match parse version with
  | Raise e => e = invalid_format version
  | Ok (major, minor, patch, _, _) =>
      exists X Y Z t : string,
        version = (X ++ "." ++ Y ++ "." ++ Z ++ t)%string
        /\ is_numeral X = true /\ is_numeral Y = true /\ is_numeral Z = true
        /\ major = Some X /\ minor = Some Y /\ patch = Some Z
  end.
Proof. exact (parse_shape_aux version). Qed.

(** ** The outcomes of construction *)





(** ** One stage token, with and without the hyphen *)









(** ** Numeric identifiers after the hyphen *)

Section DefaultForm.
Variable subject : string.
Implicit Types (r : regex) (s : string) (g m : groups)
         (k : string -> groups -> option groups).






End DefaultForm.
















(** ** Words after the hyphen *)








(** ** Normalisation of stage names *)

(** X19. The strings [replace_shortening] returns are fixed points of it:
    whenever it maps an identifier to a string, that string is one of the
    four stage names and is mapped to itself. *)
Theorem replace_shortening_stable (s t : string) :
  replace_shortening s = Ok (IStr t) ->
  is_stage t = true /\ replace_shortening t = Ok (IStr t).
Proof.
  intros H. apply replace_shortening_canonical in H. cbn [canonical] in H.
  split; [exact H|]. each_stage H; vm_compute; reflexivity.
Qed.

Lemma replace_shortening_stable_witness :
  is_stage "release_candidate" = true
  /\ replace_shortening "release_candidate" = Ok (IStr "release_candidate").
Proof.
  apply (replace_shortening_stable "rc" "release_candidate"). vm_compute. reflexivity.
Defined.

(** ** Numbers without leading zeros are read back *)








